(** * SchNet representation: a shallow embedding of
      [src/schnetpack/representation/schnet.py]

    The file embeds [SchNetInteraction] and [SchNet] (constructor and
    [forward]) together with the part of the tensor library they call, and
    proves the properties of the representation stack.

    Conventions.
    - A tensor is a shape and its row-major data.  Floating-point scalars are
      an abstract carrier [scalar] with uninterpreted operations: every
      equality proved below holds for each interpretation of them.
    - Python exceptions are the [Raise] results of the [result] type; a
      computation that prints, draws random numbers or moves a tensor to the
      GPU runs in the monad [M] over the [World].
    - Layers of the package whose code is not part of the sources
      ([AtomDistances], [CFConv], [GaussianSmearing], cutoff networks) and the
      key names of [Properties] are fields of the class [Package]; [Dense] is
      modelled as the affine layer the specification describes.
    - Extents and widths are natural numbers, so [int(n / 2)] is [n / 2].
      The device a tensor lives on is not tracked: [.cuda()] only needs a
      CUDA device to be present. *)

From stdpp Require Import gmap strings list.
From Stdlib Require Import ZArith Lia.

Open Scope nat_scope.

(* ===================================================================== *)
(** ** Exceptions and fallible results *)
(* ===================================================================== *)

Inductive exn :=
| KeyError (key : string)
| IndexError
| TypeError
| RuntimeError
| AttributeError
| AssertionError
| ZeroDivisionError.

Inductive result (X : Type) :=
| Ok (x : X)
| Raise (e : exn).
Arguments Ok {X} x.
Arguments Raise {X} e.

#[global] Instance result_ret : MRet result := λ _ x, Ok x.
#[global] Instance result_bind : MBind result := λ _ _ f r,
  match r with
  | Ok x => f x
  | Raise e => Raise e
  end.

#[global] Instance result_fmap : FMap result := λ _ _ f r,
  match r with
  | Ok x => Ok (f x)
  | Raise e => Raise e
  end.

(* ===================================================================== *)
(** ** Tensors: shape and row-major data *)
(* ===================================================================== *)

Record tensor (A : Type) := Tensor { tshape : list nat; tdata : list A }.
Arguments Tensor {A} tshape tdata.
Arguments tshape {A} t.
Arguments tdata {A} t.

(** Number of elements of a shape. *)
Definition numel (s : list nat) : nat := foldr Nat.mul 1 s.

(** The last dimension of a shape and the dimensions before it. *)
Definition split_last (s : list nat) : option (list nat * nat) :=
  match reverse s with
  | [] => None
  | k :: lead => Some (reverse lead, k)
  end.

(** Bound of a Python slice on a dimension of extent [len]: a negative bound
    counts from the end, and the result is clamped to [0, len]. *)
Definition slice_index (v : Z) (len : nat) : nat :=
  Z.to_nat (if (v <? 0)%Z then Z.max (v + Z.of_nat len) 0
            else Z.min v (Z.of_nat len)).

(** [t[:, :, start:stop]].  Indexing a tensor with fewer than three
    dimensions raises [IndexError]; an empty range gives extent 0. *)
Definition slice2 {A} (t : tensor A) (start stop : Z) : result (tensor A) :=
  match tshape t with
  | d0 :: d1 :: d2 :: rest =>
      let lo := slice_index start d2 in
      let hi := slice_index stop d2 in
      let n := hi - lo in
      let inner := numel rest in
      Ok (Tensor (d0 :: d1 :: n :: rest)
            (flat_map
               (λ o, take (n * inner) (drop ((o * d2 + lo) * inner) (tdata t)))
               (seq 0 (d0 * d1))))
  | _ => Raise IndexError
  end.

(** [t[i][k][0]]: the sub-tensor at the front of row [k] of structure [i]. *)
Definition item_ik0 {A} (t : tensor A) (i k : nat) : result (tensor A) :=
  match tshape t with
  | d0 :: d1 :: d2 :: rest =>
      if decide (i < d0 ∧ k < d1 ∧ 0 < d2) then
        let inner := numel rest in
        Ok (Tensor rest (take inner (drop ((i * d1 + k) * d2 * inner) (tdata t))))
      else Raise IndexError
  | _ => Raise IndexError
  end.

(** [t[:, None]] *)
Definition unsqueeze1 {A} (t : tensor A) : result (tensor A) :=
  match tshape t with
  | d0 :: rest => Ok (Tensor (d0 :: 1 :: rest) (tdata t))
  | [] => Raise IndexError
  end.

(** Shapes are broadcast from the last dimension backwards: two extents are
    compatible when they are equal or one of them is 1. *)
Fixpoint broadcast_rev (s1 s2 : list nat) : option (list nat) :=
  match s1, s2 with
  | [], s | s, [] => Some s
  | d1 :: r1, d2 :: r2 =>
      d ← (if decide (d1 = d2) then Some d1
           else if decide (d1 = 1) then Some d2
           else if decide (d2 = 1) then Some d1
           else None);
      r ← broadcast_rev r1 r2;
      Some (d :: r)
  end.

Definition broadcast_shapes (s1 s2 : list nat) : option (list nat) :=
  reverse <$> broadcast_rev (reverse s1) (reverse s2).

(** Multi-index (last dimension first) of the flat position [i]. *)
Fixpoint unravel_rev (srev : list nat) (i : nat) : list nat :=
  match srev with
  | [] => []
  | d :: r => (i `mod` d) :: unravel_rev r (i `div` d)
  end.

(** Flat position in an operand of (reversed) shape [srev] of a multi-index
    of the broadcast result; a dimension of extent 1 is read at 0. *)
Fixpoint ravel_rev (srev idx : list nat) : nat :=
  match srev, idx with
  | d :: r, k :: ks => (if decide (d = 1) then 0 else k) + d * ravel_rev r ks
  | _, _ => 0
  end.

Definition broadcast_get {A} (dflt : A) (t : tensor A) (out_rev : list nat)
    (i : nat) : A :=
  nth (ravel_rev (reverse (tshape t)) (unravel_rev out_rev i)) (tdata t) dflt.

(** Element-wise binary operation with broadcasting ([a + b], [a * b],
    [a / b]); incompatible shapes raise [RuntimeError]. *)
Definition tbinop {A} (dflt : A) (f : A → A → A) (a b : tensor A)
    : result (tensor A) :=
  match broadcast_shapes (tshape a) (tshape b) with
  | Some s =>
      Ok (Tensor s
            (map (λ i, f (broadcast_get dflt a (reverse s) i)
                         (broadcast_get dflt b (reverse s) i))
               (seq 0 (numel s))))
  | None => Raise RuntimeError
  end.

(** [torch.sum(t, dim=1, keepdim=True)] *)
Definition sum_dim1_keepdim {A} (zero : A) (add : A → A → A) (t : tensor A)
    : result (tensor A) :=
  match tshape t with
  | d0 :: d1 :: rest =>
      let inner := numel rest in
      Ok (Tensor (d0 :: 1 :: rest)
            (flat_map
               (λ b, map (λ r, foldl add zero
                                 (map (λ a, nth ((b * d1 + a) * inner + r)
                                              (tdata t) zero) (seq 0 d1)))
                       (seq 0 inner))
               (seq 0 d0)))
  | _ => Raise IndexError
  end.

(** [torch.cat((a, b), 2)].  Both operands need the same number of
    dimensions (at least three) and the same extents outside dimension 2.
    PyTorch's legacy rule skips an operand of shape [(0,)]. *)
Definition cat2 {A} (a b : tensor A) : result (tensor A) :=
  if decide (tshape b = [0]) then Ok a
  else if decide (tshape a = [0]) then Ok b
  else
    match tshape a, tshape b with
    | a0 :: a1 :: a2 :: ar, b0 :: b1 :: b2 :: br =>
        if decide (a0 = b0 ∧ a1 = b1 ∧ ar = br) then
          let inner := numel ar in
          Ok (Tensor (a0 :: a1 :: (a2 + b2) :: ar)
                (flat_map
                   (λ o, take (a2 * inner) (drop (o * a2 * inner) (tdata a)) ++
                         take (b2 * inner) (drop (o * b2 * inner) (tdata b)))
                   (seq 0 (a0 * a1))))
        else Raise RuntimeError
    | _, _ => Raise IndexError
    end.

(* ===================================================================== *)
(** ** Scalars, random numbers and the world *)
(* ===================================================================== *)

(** The distributions tensors are filled from. *)
Inductive sampler :=
| UniformUnit                                (* torch.rand *)
| StdNormal                                  (* nn.Embedding weights *)
| NormalInvSqrt (n : nat)                    (* normal_(0, 1 / n ** 0.5) *)
| XavierUniform (fan_in fan_out : nat).      (* Dense weights *)

(** Floating-point scalars and the random generator of PyTorch.  [sample d n s]
    draws [n] numbers from [d] and returns the advanced generator state. *)
Class Numeric := {
  scalar : Type;
  szero : scalar;
  sadd : scalar → scalar → scalar;
  smul : scalar → scalar → scalar;
  sdiv : scalar → scalar → scalar;
  sis_one : scalar → bool;
  Seed : Type;
  sample : sampler → nat → Seed → list scalar * Seed;
}.

Section Library.
Context `{Numeric}.

(** What the input dictionary holds under a key. *)
Inductive value :=
| VNone
| VLong (t : tensor Z)
| VFloat (t : tensor scalar).

Definition value_shape (v : value) : option (list nat) :=
  match v with
  | VNone => None
  | VLong t => Some (tshape t)
  | VFloat t => Some (tshape t)
  end.

(** One argument of a [print] call. *)
Inductive parg :=
| PStr (s : string)
| PInt (n : Z)
| PSize (s : list nat)
| PValue (v : value).

(** The state outside the model: the global random generator, the lines
    written to standard output, and whether a CUDA device is present. *)
Record World := mkWorld {
  rng : Seed;
  stdout : list (list parg);
  cuda_available : bool;
}.

(** Computations with effects; an exception keeps the effects made so far. *)
Definition M (X : Type) : Type := World → World * result X.

#[global] Instance M_ret : MRet M := λ _ x w, (w, Ok x).
#[global] Instance M_bind : MBind M := λ _ _ f c w,
  match c w with
  | (w', Ok x) => f x w'
  | (w', Raise e) => (w', Raise e)
  end.

Definition lift {X} (r : result X) : M X := λ w, (w, r).

Definition raise {X} (e : exn) : M X := lift (Raise e).

Definition print (args : list parg) : M unit := λ w,
  (mkWorld (rng w) (stdout w ++ [args]) (cuda_available w), Ok ()).

(** A step that only advances the random generator. *)
Definition draw {X} (f : Seed → X * Seed) : M X := λ w,
  let '(x, s) := f (rng w) in
  (mkWorld s (stdout w) (cuda_available w), Ok x).

(** A tensor of the given shape filled from a distribution. *)
Definition fill (d : sampler) (shape : list nat) : M (tensor scalar) :=
  draw (λ s, let '(xs, s') := sample d (numel shape) s in
             (Tensor shape xs, s')).

(** [torch.rand(shape)] *)
Definition torch_rand (shape : list nat) : M (tensor scalar) :=
  fill UniformUnit shape.

(** [t.cuda()]: fails when no CUDA device is present.  The device a tensor
    lives on is not tracked. *)
Definition cuda (t : tensor scalar) : M (tensor scalar) := λ w,
  (w, if cuda_available w then Ok t else Raise RuntimeError).

(** [Variable(t)] is the identity on the data. *)
Definition Variable' (t : tensor scalar) : tensor scalar := t.

(** [t * c] for a Python number [c]. *)
Definition scale (t : tensor scalar) (c : scalar) : tensor scalar :=
  Tensor (tshape t) (map (λ x, smul x c) (tdata t)).

Definition tadd : tensor scalar → tensor scalar → result (tensor scalar) :=
  tbinop szero sadd.
Definition tmul : tensor scalar → tensor scalar → result (tensor scalar) :=
  tbinop szero smul.
Definition tdiv : tensor scalar → tensor scalar → result (tensor scalar) :=
  tbinop szero sdiv.

(** [inputs[key]] *)
Definition getitem (inputs : gmap string value) (key : string) : M value :=
  match inputs !! key with
  | Some v => mret v
  | None => raise (KeyError key)
  end.

(** A value used where a floating-point tensor is needed. *)
Definition as_float (v : value) : result (tensor scalar) :=
  match v with
  | VFloat t => Ok t
  | VLong _ => Raise RuntimeError
  | VNone => Raise TypeError
  end.

(** [v[:, :, start:stop]] on a dictionary value. *)
Definition value_slice2 (v : value) (start stop : Z) : result value :=
  match v with
  | VNone => Raise TypeError
  | VLong t => VLong <$> slice2 t start stop
  | VFloat t => VFloat <$> slice2 t start stop
  end.

(* ===================================================================== *)
(** ** Layers of the tensor library *)
(* ===================================================================== *)

(** Modelled from the spec: [schnetpack.nn.base.Dense] is not among the
    sources.  The spec calls it an affine transform (4.6, 4.7), optionally
    followed by a smooth nonlinearity (4.4): [y = activation(x W^T + b)] on
    the last dimension, which must have extent [in_features]. *)
Record Dense := mkDense {
  in_features : nat;
  out_features : nat;
  weight : tensor scalar;             (* out_features x in_features *)
  bias : option (tensor scalar);      (* out_features *)
  activation : option (scalar → scalar);
}.

Definition Dense_init (n_in n_out : nat) (with_bias : bool)
    (act : option (scalar → scalar)) : M Dense :=
  w ← fill (XavierUniform n_in n_out) [n_out; n_in];
  mret (mkDense n_in n_out w
          (if with_bias then Some (Tensor [n_out] (replicate n_out szero))
           else None)
          act).

Definition dot (xs ws : list scalar) : scalar :=
  foldl sadd szero (zip_with smul xs ws).

Definition Dense_forward (d : Dense) (x : tensor scalar)
    : result (tensor scalar) :=
  match split_last (tshape x) with
  | Some (lead, k) =>
      if decide (k = in_features d) then
        let row r := take k (drop (r * k) (tdata x)) in
        let wrow j := take k (drop (j * k) (tdata (weight d))) in
        let bj j := match bias d with
                    | Some b => sadd (nth j (tdata b) szero)
                    | None => id
                    end in
        let act := default id (activation d) in
        Ok (Tensor (lead ++ [out_features d])
              (flat_map (λ r, map (λ j, act (bj j (dot (row r) (wrow j))))
                               (seq 0 (out_features d)))
                 (seq 0 (numel lead))))
      else Raise RuntimeError
  | None => Raise RuntimeError
  end.

(** [torch.nn.Embedding]: a table of [num_embeddings] rows of width
    [embedding_dim]; the row at [padding_idx] is zero. *)
Record Embedding := mkEmbedding {
  num_embeddings : nat;
  embedding_dim : nat;
  padding_idx : nat;
  emb_weight : tensor scalar;
}.

Definition Embedding_init (num dim pad : nat) : M Embedding :=
  if decide (pad < num) then
    w ← fill StdNormal [num; dim];
    mret (mkEmbedding num dim pad
            (Tensor [num; dim]
               (take (pad * dim) (tdata w) ++ replicate dim szero ++
                drop (S pad * dim) (tdata w))))
  else raise AssertionError.

Fixpoint lookup_rows (e : Embedding) (idx : list Z) : result (list scalar) :=
  match idx with
  | [] => Ok []
  | i :: rest =>
      if decide (0 ≤ i < Z.of_nat (num_embeddings e))%Z then
        rows ← lookup_rows e rest;
        Ok (take (embedding_dim e)
              (drop (Z.to_nat i * embedding_dim e) (tdata (emb_weight e)))
            ++ rows)
      else Raise IndexError
  end.

(** The argument must be an integer tensor; an index outside the table
    raises [IndexError]. *)
Definition Embedding_forward (e : Embedding) (v : value)
    : result (tensor scalar) :=
  match v with
  | VLong idx =>
      rows ← lookup_rows e (tdata idx);
      Ok (Tensor (tshape idx ++ [embedding_dim e]) rows)
  | VFloat _ => Raise RuntimeError
  | VNone => Raise TypeError
  end.

End Library.

(* ===================================================================== *)
(** ** The rest of the package *)
(* ===================================================================== *)

(** Modules and constants that [schnet.py] imports from the package and whose
    code is not among the sources.  They are parameters of the development:
    the key names of [schnetpack.Properties], the activation
    [shifted_softplus], cutoff networks (the constructor argument
    [cutoff_network] is a class, here a function from the radius),
    distance expansions ([GaussianSmearing] or a module supplied by the
    caller), [AtomDistances] (which has no parameters of its own) and
    [CFConv].  Their constructors allocate parameters and do not fail; their
    [forward] neither prints nor draws random numbers. *)
Class Package `{Numeric} := {
  Properties_Z : string;
  Properties_R : string;
  Properties_cell : string;
  Properties_cell_offset : string;
  Properties_neighbors : string;
  Properties_neighbor_mask : string;
  Properties_atom_mask : string;
  Properties_charge : string;
  shifted_softplus : scalar → scalar;
  CutoffNetwork : Type;
  HardCutoff : scalar → CutoffNetwork;
  DistanceExpansion : Type;
  GaussianSmearing : scalar → scalar → nat → bool → DistanceExpansion;
  DistanceExpansion_forward :
    DistanceExpansion → tensor scalar → result (tensor scalar);
  (* positions, neighbors, cell, cell_offsets, neighbor_mask *)
  AtomDistances_forward :
    tensor scalar → value → value → value → value → result (tensor scalar);
  CFConv : Type;
  (* n_in, n_filters, n_out, filter_network, cutoff_network, activation,
     normalize_filter; the constructor draws the initial weights *)
  CFConv_init :
    nat → nat → nat → Dense * Dense → CutoffNetwork →
    option (scalar → scalar) → bool → Seed → CFConv * Seed;
  (* x, r_ij, neighbors, pairwise_mask, f_ij *)
  CFConv_forward :
    CFConv → tensor scalar → tensor scalar → value → value →
    option (tensor scalar) → result (tensor scalar);
}.

Section Loops.
Context `{Numeric}.

(** [for a in l: s = body(a, s)] *)
Fixpoint for_each {A S} (l : list A) (body : A → S → M S) (s : S) : M S :=
  match l with
  | [] => mret s
  | a :: rest => s' ← body a s; for_each rest body s'
  end.

(** [[f(a) for a in l]] *)
Fixpoint comprehension {A B} (f : A → M B) (l : list A) : M (list B) :=
  match l with
  | [] => mret []
  | a :: rest => b ← f a; bs ← comprehension f rest; mret (b :: bs)
  end.

End Loops.

(* ===================================================================== *)
(** ** class SchNetInteraction *)
(* ===================================================================== *)

Module SchNetInteraction.
Section Def.
Context `{Package}.

Record t := mk {
  filter_network : Dense * Dense;
  cutoff_network : CutoffNetwork;
  cfconv : CFConv;
  dense : Dense;
}.

(** [SchNetInteraction.__init__], lines 30-58. *)
Definition __init__ (n_atom_basis n_spatial_basis n_filters : nat)
    (cutoff : scalar) (cutoff_network : scalar → CutoffNetwork)
    (normalize_filter : bool) : M t :=
  (* filter block used in interaction block *)
  f1 ← Dense_init n_spatial_basis n_filters true (Some shifted_softplus);
  f2 ← Dense_init n_filters n_filters true None;
  let filter_network := (f1, f2) in
  (* cutoff layer used in interaction block *)
  let cutoff_network := cutoff_network cutoff in
  (* interaction block *)
  cfconv ← draw (CFConv_init n_atom_basis n_filters n_atom_basis
                   filter_network cutoff_network (Some shifted_softplus)
                   normalize_filter);
  (* dense layer *)
  dense ← Dense_init n_atom_basis n_atom_basis true None;
  mret (mk filter_network cutoff_network cfconv dense).

(** [SchNetInteraction.forward], lines 60-80. *)
Definition forward (self : t) (x r_ij : tensor scalar)
    (neighbors neighbor_mask : value) (f_ij : option (tensor scalar))
    : result (tensor scalar) :=
  (* continuous-filter convolution interaction block followed by Dense layer *)
  v ← CFConv_forward (cfconv self) x r_ij neighbors neighbor_mask f_ij;
  v ← Dense_forward (dense self) v;
  Ok v.

End Def.
End SchNetInteraction.

(* ===================================================================== *)
(** ** class SchNet *)
(* ===================================================================== *)

(** The argument [n_filters] is a number or a list of numbers. *)
Inductive n_filters_arg :=
| FiltersInt (n : nat)
| FiltersList (l : list nat).

Module SchNet.

(** The arguments of the constructor, lines 123-143. *)
Module Args.
Section Def.
Context `{Package}.

Record t := mk {
  n_atom_basis : nat;
  n_filters : n_filters_arg;
  n_interactions : nat;
  cutoff : scalar;
  n_gaussians : nat;
  normalize_filter : bool;
  coupled_interactions : bool;
  return_intermediate : bool;
  max_z : nat;
  cutoff_network : scalar → CutoffNetwork;
  trainable_gaussians : bool;
  distance_expansion : option DistanceExpansion;
  charged_systems : bool;
  use_noise : bool;
  noise_mean : scalar;
  noise_std : scalar;
  chargeEmbedding : bool;
  selectFet : option Z;
}.

End Def.
End Args.

Section Def.
Context `{Package}.

(** The attributes of an instance.  [embedding] and [charge] are set on some
    paths of the constructor only. *)
Record t := mk {
  chargeEmbedding : bool;
  n_atom_basis : nat;
  selectFet : option Z;
  embedding : option Embedding;
  dense : Dense;
  distance_expansion : DistanceExpansion;
  interactions : list SchNetInteraction.t;
  use_noise : bool;
  noise_mean : scalar;
  noise_std : scalar;
  return_intermediate : bool;
  charged_systems : bool;
  charge : option (tensor scalar);
  newpos : tensor scalar;
}.

(** Lines 152-164: the lookup table and the affine layer of the auxiliary
    properties.  [int(n_atom_basis / 2)] is the quotient rounded down. *)
Definition init_embedding (a : Args.t) : M (option Embedding * Dense) :=
  let n_atom_basis := Args.n_atom_basis a in
  if Args.chargeEmbedding a && bool_decide (Args.selectFet a = None) then
    embedding ← Embedding_init (Args.max_z a) (n_atom_basis / 2) 0;
    dense ← Dense_init 8 (n_atom_basis / 2) true None;
    mret (Some embedding, dense)
  else if negb (Args.chargeEmbedding a) && bool_decide (Args.selectFet a = None) then
    dense ← Dense_init 8 n_atom_basis true None;
    mret (None, dense)
  else if Args.chargeEmbedding a && bool_decide (Args.selectFet a ≠ None) then
    embedding ← Embedding_init (Args.max_z a) (n_atom_basis / 2) 0;
    dense ← Dense_init 1 (n_atom_basis / 2) true None;
    mret (Some embedding, dense)
  else
    dense ← Dense_init 1 n_atom_basis true None;
    mret (None, dense).

(** Lines 177-222: the interaction blocks.  With a list of filter widths the
    block [i] takes [n_filters[i]]; with [coupled_interactions] the list
    repeats one instance. *)
Definition init_interactions (a : Args.t) : M (list SchNetInteraction.t) :=
  let block n := SchNetInteraction.__init__ (Args.n_atom_basis a)
                   (Args.n_gaussians a) n (Args.cutoff a)
                   (Args.cutoff_network a) (Args.normalize_filter a) in
  match Args.n_filters a with
  | FiltersList l =>
      comprehension
        (λ i, match l !! i with
              | Some n => block n
              | None => raise IndexError
              end)
        (seq 0 (Args.n_interactions a))
  | FiltersInt n =>
      if Args.coupled_interactions a then
        (* use the same SchNetInteraction instance (hence the same weights) *)
        b ← block n;
        mret (replicate (Args.n_interactions a) b)
      else
        (* use one SchNetInteraction instance for each interaction *)
        comprehension (λ _, block n) (seq 0 (Args.n_interactions a))
  end.

(** [SchNet.__init__], lines 123-233. *)
Definition __init__ (a : Args.t) : M t :=
  '(embedding, dense) ← init_embedding a;
  (* layer for computing interatomic distances: AtomDistances() has no
     parameters, its forward is [AtomDistances_forward] *)
  (* layer for expanding interatomic distances in a basis *)
  let distance_expansion :=
    match Args.distance_expansion a with
    | None => GaussianSmearing szero (Args.cutoff a) (Args.n_gaussians a)
                (Args.trainable_gaussians a)
    | Some d => d
    end in
  (* block for computing interaction *)
  interactions ← init_interactions a;
  (* set attributes *)
  charge ←
    (if Args.charged_systems a then
       if decide (Args.n_atom_basis a = 0) then raise ZeroDivisionError
       else
         c ← fill (NormalInvSqrt (Args.n_atom_basis a)) [1; Args.n_atom_basis a];
         mret (Some c)
     else mret None);
  r ← torch_rand [1; 600; 3];
  newpos ← cuda (Variable' r);
  mret (mk (Args.chargeEmbedding a) (Args.n_atom_basis a) (Args.selectFet a)
          embedding dense distance_expansion interactions
          (Args.use_noise a) (Args.noise_mean a) (Args.noise_std a)
          (Args.return_intermediate a) (Args.charged_systems a) charge newpos).

End Def.

(** The local variables of [forward] at line 300, before the distances are
    computed. *)
Module Locals.
Section Def.
Context `{Package}.

Record t := mk {
  atomic_numbers : value;
  positions : tensor scalar;
  cell : value;
  cell_offset : value;
  neighbors : value;
  neighbor_mask : value;
  atom_mask : value;
  ligand_indicator : value;
  props : value;
  x : tensor scalar;
}.

End Def.
End Locals.

Section Forward.
Context `{Package}.

(** Extent of dimension [i] of a value: [len(v)] for [i = 0], [len(v[0])]
    for [i = 1]. *)
Definition value_dim (v : value) (i : nat) : result nat :=
  match value_shape v with
  | Some s => match s !! i with
              | Some d => Ok d
              | None => Raise TypeError
              end
  | None => Raise TypeError
  end.

(** The truth value of [props[i][k][0] == 1]; a comparison result with
    another number of elements than one has no truth value. *)
Definition eq_one_at (props : value) (i k : nat) : result bool :=
  match props with
  | VFloat t =>
      e ← item_ik0 t i k;
      match tdata e with
      | [v] => Ok (sis_one v)
      | _ => Raise RuntimeError
      end
  | VLong t =>
      e ← item_ik0 t i k;
      match tdata e with
      | [v] => Ok (bool_decide (v = 1%Z))
      | _ => Raise RuntimeError
      end
  | VNone => Raise TypeError
  end.

(** Lines 258-272: the auxiliary properties fed to the affine layer, one
    selected column or all of them. *)
Definition select_props (self : t) (inputs : gmap string value) : M value :=
  match selectFet self with
  | Some s =>
      all ← getitem inputs "props";
      props ← lift (value_slice2 all s (s + 1));
      n ← lift (value_dim props 0);
      for_each (seq 0 n)
        (λ i _,
           m ← lift (value_dim props 1);
           yes ← for_each (seq 0 m)
                   (λ k yes,
                      b ← lift (eq_one_at props i k);
                      if b : bool then
                        print [PStr "prot"; PInt (Z.of_nat i)];; mret true
                      else
                        print [PStr "lig"];; mret yes)
                   false;
           if negb yes then print [PInt (Z.of_nat i); PStr " has no prot"]
           else mret ())
        ();;
      print [PValue props];;
      mret props
  | None => getitem inputs "props"
  end.

(** Lines 282-292: the initial atom features. *)
Definition embed (self : t) (props atomic_numbers : value)
    : M (tensor scalar) :=
  if chargeEmbedding self then
    (* get atom embeddings for the input atomic numbers *)
    p ← lift (as_float props ≫= Dense_forward (dense self));
    embedding ← match embedding self with
                | Some e => mret e
                | None => raise AttributeError
                end;
    x ← lift (Embedding_forward embedding atomic_numbers);
    x ← lift (cat2 p x);
    print [PSize (tshape x)];;
    mret x
  else
    lift (as_float props ≫= Dense_forward (dense self)).

(** Lines 296-299, the body of the charge branch:
    [x + (inputs[charge] / sum(atom_mask, 1))[:, None] * self.charge]. *)
Definition charge_update (self : t) (inputs : gmap string value)
    (atom_mask : value) (x : tensor scalar) : result (tensor scalar) :=
  n_atoms ← as_float atom_mask ≫= sum_dim1_keepdim szero sadd;
  q ← match inputs !! Properties_charge with
      | Some v => as_float v
      | None => Raise (KeyError Properties_charge)
      end;
  q ← tdiv q n_atoms;
  q ← unsqueeze1 q;
  c ← match charge self with
      | Some c => Ok c
      | None => Raise AttributeError
      end;
  q ← tmul q c;
  tadd x q.

(** Lines 247-299 of [SchNet.forward]. *)
Definition forward_embed (self : t) (inputs : gmap string value)
    : M Locals.t :=
  (* get tensors from input dictionary *)
  atomic_numbers ← getitem inputs Properties_Z;
  let positions := newpos self in (* inputs[Properties.R] *)
  cell ← getitem inputs Properties_cell;
  cell_offset ← getitem inputs Properties_cell_offset;
  neighbors ← getitem inputs Properties_neighbors;
  neighbor_mask ← getitem inputs Properties_neighbor_mask;
  atom_mask ← getitem inputs Properties_atom_mask;
  all ← getitem inputs "props";
  ligand_indicator ← lift (value_slice2 all 7 8);
  print [PStr "li: "; PSize (default [] (value_shape ligand_indicator))];;
  props ← select_props self inputs;
  x ← embed self props atomic_numbers;
  x ← (if false && charged_systems self
          && bool_decide (is_Some (inputs !! Properties_charge))
       then lift (charge_update self inputs atom_mask x)
       else mret x);
  mret (Locals.mk atomic_numbers positions cell cell_offset neighbors
          neighbor_mask atom_mask ligand_indicator props x).

(** Lines 301-312: the noise tensor, the distances and their expansion.  The
    statement guarded by [use_noise] is the expression [positions] alone. *)
Definition forward_distances (self : t) (l : Locals.t)
    : M (tensor scalar * tensor scalar) :=
  let positions := Locals.positions l in
  let shape := tshape positions in
  print [PValue (VFloat positions)];;
  r ← torch_rand shape;
  noise ← cuda (Variable' (scale r (noise_mean self)));
  (if use_noise self then let _ := positions (* + noise *) in mret ()
   else mret ());;
  (* compute interatomic distance of every atom to its neighbors *)
  r_ij ← lift (AtomDistances_forward positions (Locals.neighbors l)
                 (Locals.cell l) (Locals.cell_offset l)
                 (Locals.neighbor_mask l));
  (* expand interatomic distances (for example, Gaussian smearing) *)
  f_ij ← lift (DistanceExpansion_forward (distance_expansion self) r_ij);
  mret (r_ij, f_ij).

(** Lines 313-324: the interaction blocks and the value returned. *)
Definition forward_interactions (self : t) (l : Locals.t)
    (r_ij f_ij : tensor scalar)
    : M (tensor scalar * option (list (tensor scalar))) :=
  let x := Locals.x l in
  (* store intermediate representations *)
  let xs := if return_intermediate self then [x] else [] in
  (* compute interaction block to update atomic embeddings *)
  '(x, xs) ← for_each (interactions self)
               (λ interaction '(x, xs),
                  v ← lift (SchNetInteraction.forward interaction x r_ij
                              (Locals.neighbors l) (Locals.neighbor_mask l)
                              (Some f_ij));
                  x ← lift (tadd x v);
                  mret (x, if return_intermediate self then xs ++ [x] else xs))
               (x, xs);
  if return_intermediate self then mret (x, Some xs)
  else mret (x, None).

(** [SchNet.forward], lines 235-325. *)
Definition forward (self : t) (inputs : gmap string value)
    : M (tensor scalar * option (list (tensor scalar))) :=
  l ← forward_embed self inputs;
  '(r_ij, f_ij) ← forward_distances self l;
  forward_interactions self l r_ij f_ij.

End Forward.
End SchNet.

(* ===================================================================== *)
(** ** A concrete interpretation *)
(* ===================================================================== *)

(** Integers for the scalars, a counter for the random generator and small
    stand-ins for the layers outside the sources.  The model is evaluated on
    it at concrete batches. *)
Module Concrete.

#[export] Instance numeric : Numeric := {|
  scalar := Z;
  szero := 0%Z;
  sadd := Z.add;
  smul := Z.mul;
  sdiv := Z.div;
  sis_one := λ v, bool_decide (v = 1%Z);
  Seed := nat;
  sample := λ _ n s, (map (λ i, Z.of_nat ((s + i) `mod` 5)) (seq 0 n), s + n);
|}.

(** The distance stand-in reads the first coordinate of each neighbour in
    the positions it is given. *)
Definition distances (positions : tensor Z) (neighbors : value)
    : result (tensor Z) :=
  match neighbors with
  | VLong t =>
      Ok (Tensor (tshape t)
            (map (λ j, nth (3 * Z.to_nat j) (tdata positions) 0%Z) (tdata t)))
  | _ => Raise TypeError
  end.

(** The convolution stand-in checks the width of [x] and returns, for every
    atom of the neighbour list, the sum of all distances. *)
Definition convolution (c : nat * nat) (x r_ij : tensor Z) (neighbors : value)
    : result (tensor Z) :=
  match split_last (tshape x), value_shape neighbors with
  | Some (_, k), Some [B; A; _] =>
      if decide (k = c.1) then
        Ok (Tensor [B; A; c.2]
              (replicate (B * A * c.2) (foldl Z.add 0%Z (tdata r_ij))))
      else Raise RuntimeError
  | _, _ => Raise RuntimeError
  end.

#[export] Instance package : Package := {|
  Properties_Z := "_atomic_numbers";
  Properties_R := "_positions";
  Properties_cell := "_cell";
  Properties_cell_offset := "_cell_offset";
  Properties_neighbors := "_neighbors";
  Properties_neighbor_mask := "_neighbor_mask";
  Properties_atom_mask := "_atom_mask";
  Properties_charge := "_charge";
  shifted_softplus := λ v, v;
  CutoffNetwork := Z;
  HardCutoff := λ c, c;
  DistanceExpansion := nat;
  GaussianSmearing := λ _ _ n _, n;
  DistanceExpansion_forward := λ g r,
    Ok (Tensor (tshape r ++ [g]) (flat_map (replicate g) (tdata r)));
  AtomDistances_forward := λ positions neighbors _ _ _,
    distances positions neighbors;
  CFConv := nat * nat;
  CFConv_init := λ n_in _ n_out _ _ _ _ s, ((n_in, n_out), s);
  CFConv_forward := λ c x r_ij neighbors _ _, convolution c x r_ij neighbors;
|}.

(** The default arguments of the constructor (lines 125-142), except for
    smaller numbers of features, filters and Gaussians. *)
Definition defaults : SchNet.Args.t :=
  SchNet.Args.mk 4 (FiltersInt 3) 3 5%Z 4 false false false 100 HardCutoff
    false None false false 0%Z 1%Z true None.

Definition args (n_atom_basis n_interactions : nat)
    (chargeEmbedding return_intermediate : bool) : SchNet.Args.t :=
  SchNet.Args.mk n_atom_basis (FiltersInt 3) n_interactions 5%Z 4 false false
    return_intermediate 100 HardCutoff false None false false 0%Z 1%Z
    chargeEmbedding None.

(** The charge feature switched on, features from the properties alone,
    intermediates recorded. *)
Definition args_charged : SchNet.Args.t :=
  SchNet.Args.mk 2 (FiltersInt 3) 1 5%Z 4 false false true 100 HardCutoff
    false None true false 0%Z 1%Z false None.


(** A world with a CUDA device and nothing printed. *)
Definition world0 : World := mkWorld 0 [] true.


(** One structure of two atoms (C and O), each the only neighbour of the
    other. *)
Definition batch (props : tensor Z) (positions : tensor Z)
    : gmap string value :=
  <[ "_atomic_numbers" := VLong (Tensor [1; 2] [6; 8]%Z) ]>
  (<[ "_positions" := VFloat positions ]>
  (<[ "_cell" := VNone ]>
  (<[ "_cell_offset" := VNone ]>
  (<[ "_neighbors" := VLong (Tensor [1; 2; 1] [1; 0]%Z) ]>
  (<[ "_neighbor_mask" := VFloat (Tensor [1; 2; 1] [1; 1]%Z) ]>
  (<[ "_atom_mask" := VFloat (Tensor [1; 2] [1; 1]%Z) ]>
  (<[ "props" := VFloat props ]> ∅))))))).

(** Eight auxiliary properties per atom, and three. *)
Definition props8 : tensor Z :=
  Tensor [1; 2; 8] [1; 0; 0; 0; 0; 0; 0; 1;  0; 2; 0; 0; 0; 0; 0; 0]%Z.

Definition props3 : tensor Z := Tensor [1; 2; 3] [1; 0; 1;  0; 2; 0]%Z.

(** The atoms at [(0, 0, 0)] and [(7, 0, 0)], and moved to [(1, 0, 0)] and
    [(9, 0, 0)]. *)
Definition positions0 : tensor Z := Tensor [1; 2; 3] [0; 0; 0; 7; 0; 0]%Z.

Definition positions1 : tensor Z := Tensor [1; 2; 3] [1; 0; 0; 9; 0; 0]%Z.

(** The batch with a total charge of 4. *)
Definition batch_charged : gmap string value :=
  <[ "_charge" := VFloat (Tensor [1; 1] [4]%Z) ]> (batch props8 positions0).

(** The value of a result, for results known to be [Ok]. *)
Definition get {X} (dflt : X) (r : result X) : X :=
  match r with
  | Ok x => x
  | Raise _ => dflt
  end.

Definition succeeded {X} (r : result X) : bool :=
  match r with
  | Ok _ => true
  | Raise _ => false
  end.

Definition no_tensor : tensor Z := Tensor [] [].

Definition no_model : SchNet.t :=
  SchNet.mk false 0 None None (mkDense 0 0 no_tensor None None) 0 [] false
    0%Z 0%Z false false None no_tensor.

Definition no_locals : SchNet.Locals.t :=
  SchNet.Locals.mk VNone no_tensor VNone VNone VNone VNone VNone VNone VNone
    no_tensor.

(** The instance the constructor returns in [world0], and the world it
    leaves. *)
Definition construct (a : SchNet.Args.t) : SchNet.t :=
  get no_model (SchNet.__init__ a world0).2.

Definition constructed (a : SchNet.Args.t) : World :=
  (SchNet.__init__ a world0).1.

(** The stages of a run of [forward]: the local variables of line 300 and
    the world then, the distances with their expansion and the world then,
    the value returned and the world at the end. *)
Definition locals_of (self : SchNet.t) (inputs : gmap string value)
    (w : World) : SchNet.Locals.t :=
  get no_locals (SchNet.forward_embed self inputs w).2.

Definition world_embedded (self : SchNet.t) (inputs : gmap string value)
    (w : World) : World :=
  (SchNet.forward_embed self inputs w).1.

Definition geometry_of (self : SchNet.t) (inputs : gmap string value)
    (w : World) : tensor Z * tensor Z :=
  get (no_tensor, no_tensor)
    (SchNet.forward_distances self (locals_of self inputs w)
       (world_embedded self inputs w)).2.

Definition world_measured (self : SchNet.t) (inputs : gmap string value)
    (w : World) : World :=
  (SchNet.forward_distances self (locals_of self inputs w)
     (world_embedded self inputs w)).1.

Definition output_of (self : SchNet.t) (inputs : gmap string value)
    (w : World) : tensor Z * option (list (tensor Z)) :=
  get (no_tensor, None) (SchNet.forward self inputs w).2.

Definition world_after (self : SchNet.t) (inputs : gmap string value)
    (w : World) : World :=
  (SchNet.forward self inputs w).1.

End Concrete.

(* ===================================================================== *)
(** ** Vocabulary of the statements *)
(* ===================================================================== *)

Section Vocabulary.
Context `{Package}.

(** The instance with another noise configuration. *)
Definition set_noise (self : SchNet.t) (use_noise : bool)
    (noise_mean noise_std : scalar) : SchNet.t :=
  SchNet.mk (SchNet.chargeEmbedding self) (SchNet.n_atom_basis self)
    (SchNet.selectFet self) (SchNet.embedding self) (SchNet.dense self)
    (SchNet.distance_expansion self) (SchNet.interactions self)
    use_noise noise_mean noise_std
    (SchNet.return_intermediate self) (SchNet.charged_systems self)
    (SchNet.charge self) (SchNet.newpos self).

(** The constructor arguments with another noise configuration. *)
Definition args_set_noise (a : SchNet.Args.t) (use_noise : bool)
    (noise_mean noise_std : scalar) : SchNet.Args.t :=
  SchNet.Args.mk (SchNet.Args.n_atom_basis a) (SchNet.Args.n_filters a)
    (SchNet.Args.n_interactions a) (SchNet.Args.cutoff a)
    (SchNet.Args.n_gaussians a) (SchNet.Args.normalize_filter a)
    (SchNet.Args.coupled_interactions a) (SchNet.Args.return_intermediate a)
    (SchNet.Args.max_z a) (SchNet.Args.cutoff_network a)
    (SchNet.Args.trainable_gaussians a) (SchNet.Args.distance_expansion a)
    (SchNet.Args.charged_systems a) use_noise noise_mean noise_std
    (SchNet.Args.chargeEmbedding a) (SchNet.Args.selectFet a).

(** The instance with another configuration of the charge feature. *)
Definition set_charge (self : SchNet.t) (charged_systems : bool)
    (charge : option (tensor scalar)) : SchNet.t :=
  SchNet.mk (SchNet.chargeEmbedding self) (SchNet.n_atom_basis self)
    (SchNet.selectFet self) (SchNet.embedding self) (SchNet.dense self)
    (SchNet.distance_expansion self) (SchNet.interactions self)
    (SchNet.use_noise self) (SchNet.noise_mean self) (SchNet.noise_std self)
    (SchNet.return_intermediate self) charged_systems charge
    (SchNet.newpos self).


(** The keys of the dictionary that [forward] reads on a live path. *)
Definition keys_read : list string :=
  [Properties_Z; Properties_cell; Properties_cell_offset;
   Properties_neighbors; Properties_neighbor_mask; Properties_atom_mask;
   "props"].

(** The update of one interaction block as the specification words it:
    the output affine transform applied to the continuous-filter
    convolution. *)
Definition outputAffine_of_CFConv (block : SchNetInteraction.t)
    (x r_ij : tensor scalar) (neighbors neighbor_mask : value)
    (f_ij : tensor scalar) : result (tensor scalar) :=
  CFConv_forward (SchNetInteraction.cfconv block) x r_ij neighbors
    neighbor_mask (Some f_ij)
  ≫= Dense_forward (SchNetInteraction.dense block).

(** The feature tensors after each block of the specification's loop
    [x = x + block.update(x, ...)], in application order. *)
Fixpoint additive_updates (blocks : list SchNetInteraction.t)
    (r_ij : tensor scalar) (neighbors neighbor_mask : value)
    (f_ij : tensor scalar) (x : tensor scalar)
    : result (list (tensor scalar)) :=
  match blocks with
  | [] => Ok []
  | block :: rest =>
      deltaX ← outputAffine_of_CFConv block x r_ij neighbors neighbor_mask f_ij;
      x' ← tadd x deltaX;
      xs ← additive_updates rest r_ij neighbors neighbor_mask f_ij x';
      Ok (x' :: xs)
  end.

(** A computation that succeeds in every world, changes nothing but the
    random generator, and returns a value satisfying [P]. *)
Definition draws_only {X} (c : M X) (P : X → Prop) : Prop :=
  ∀ w, ∃ s x, c w = (mkWorld s (stdout w) (cuda_available w), Ok x) ∧ P x.

(** Every value the computation returns satisfies [P]. *)
Definition returns {X} (c : M X) (P : X → Prop) : Prop :=
  ∀ w w' x, c w = (w', Ok x) → P x.


(** The affine layer of a block maps [F] features to [F] features. *)
Definition block_width (F : nat) (block : SchNetInteraction.t) : Prop :=
  in_features (SchNetInteraction.dense block) = F ∧
  out_features (SchNetInteraction.dense block) = F.

(** What the constructor establishes about the instance it returns. *)
Record built_from (a : SchNet.Args.t) (self : SchNet.t) : Prop := {
  built_chargeEmbedding :
    SchNet.chargeEmbedding self = SchNet.Args.chargeEmbedding a;
  built_n_atom_basis : SchNet.n_atom_basis self = SchNet.Args.n_atom_basis a;
  built_selectFet : SchNet.selectFet self = SchNet.Args.selectFet a;
  built_return_intermediate :
    SchNet.return_intermediate self = SchNet.Args.return_intermediate a;
  built_charged_systems :
    SchNet.charged_systems self = SchNet.Args.charged_systems a;
  built_dense_in :
    in_features (SchNet.dense self)
    = match SchNet.Args.selectFet a with None => 8 | Some _ => 1 end;
  built_dense_out :
    out_features (SchNet.dense self)
    = if SchNet.Args.chargeEmbedding a then SchNet.Args.n_atom_basis a / 2
      else SchNet.Args.n_atom_basis a;
  built_embedding :
    if SchNet.Args.chargeEmbedding a then
      ∃ e, SchNet.embedding self = Some e ∧
           embedding_dim e = SchNet.Args.n_atom_basis a / 2 ∧
           num_embeddings e = SchNet.Args.max_z a
    else SchNet.embedding self = None;
  built_interactions_length :
    length (SchNet.interactions self) = SchNet.Args.n_interactions a;
  built_blocks :
    Forall (block_width (SchNet.Args.n_atom_basis a))
      (SchNet.interactions self);
  built_coupled :
    SchNet.Args.coupled_interactions a = true →
    ∀ n, SchNet.Args.n_filters a = FiltersInt n →
    ∃ b, SchNet.interactions self
         = replicate (SchNet.Args.n_interactions a) b;
  built_newpos : tshape (SchNet.newpos self) = [1; 600; 3];
}.

(** What lines 152-164 establish about the lookup table and the affine
    layer of the auxiliary properties. *)
Definition embedding_built (a : SchNet.Args.t)
    (p : option Embedding * Dense) : Prop :=
  in_features p.2
  = match SchNet.Args.selectFet a with None => 8 | Some _ => 1 end ∧
  out_features p.2
  = (if SchNet.Args.chargeEmbedding a then SchNet.Args.n_atom_basis a / 2
     else SchNet.Args.n_atom_basis a) ∧
  (if SchNet.Args.chargeEmbedding a then
     ∃ e, p.1 = Some e ∧
          embedding_dim e = SchNet.Args.n_atom_basis a / 2 ∧
          num_embeddings e = SchNet.Args.max_z a
   else p.1 = None).

(** What lines 177-222 establish about the interaction blocks. *)
Definition blocks_built (a : SchNet.Args.t)
    (blocks : list SchNetInteraction.t) : Prop :=
  length blocks = SchNet.Args.n_interactions a ∧
  Forall (block_width (SchNet.Args.n_atom_basis a)) blocks ∧
  (SchNet.Args.coupled_interactions a = true →
   ∀ n, SchNet.Args.n_filters a = FiltersInt n →
   ∃ b, blocks = replicate (SchNet.Args.n_interactions a) b).

(** A list of filter widths has one entry per interaction block. *)
Definition filters_ok (a : SchNet.Args.t) : Prop :=
  match SchNet.Args.n_filters a with
  | FiltersInt _ => True
  | FiltersList l => SchNet.Args.n_interactions a ≤ length l
  end.

End Vocabulary.

(* ===================================================================== *)
(** ** Vocabulary of the further properties *)
(* ===================================================================== *)

Section Further_vocabulary.
Context `{Package}.

(** A computation that leaves the generator and the device alone and only
    adds printed lines. *)
Definition only_prints {X} (c : M X) : Prop :=
  ∀ w w' r, c w = (w', r) →
    rng w' = rng w ∧ cuda_available w' = cuda_available w ∧
    stdout w `prefix_of` stdout w'.

(** A computation that prints nothing and leaves the device alone. *)
Definition silent {X} (c : M X) : Prop :=
  ∀ w w' r, c w = (w', r) →
    stdout w' = stdout w ∧ cuda_available w' = cuda_available w.

(** The arguments the constructor accepts: a lookup table with at least the
    padding row when one is built, a filter width for every block, and a
    charge vector that is not of width 0. *)
Definition args_ok (a : SchNet.Args.t) : Prop :=
  (SchNet.Args.chargeEmbedding a = true → 0 < SchNet.Args.max_z a) ∧
  filters_ok a ∧
  (SchNet.Args.charged_systems a = true → SchNet.Args.n_atom_basis a ≠ 0).

(** The widths of the two layers of a block's filter-generating network. *)
Definition filter_widths (n_spatial_basis n_filters : nat)
    (block : SchNetInteraction.t) : Prop :=
  in_features (SchNetInteraction.filter_network block).1 = n_spatial_basis ∧
  out_features (SchNetInteraction.filter_network block).1 = n_filters ∧
  in_features (SchNetInteraction.filter_network block).2 = n_filters ∧
  out_features (SchNetInteraction.filter_network block).2 = n_filters.

(** The values of [selectFet] for which [s : s + 1] is one column out of
    [P]: an index from the front, or one from the back other than [-1]. *)
Definition selects_one_column (s : Z) (P : nat) : Prop :=
  (0 ≤ s < Z.of_nat P)%Z ∨ (- Z.of_nat P ≤ s < -1)%Z.

(** The local variables with another value for [atomic_numbers]. *)
Definition set_atomic_numbers (l : SchNet.Locals.t) (v : value)
    : SchNet.Locals.t :=
  SchNet.Locals.mk v (SchNet.Locals.positions l) (SchNet.Locals.cell l)
    (SchNet.Locals.cell_offset l) (SchNet.Locals.neighbors l)
    (SchNet.Locals.neighbor_mask l) (SchNet.Locals.atom_mask l)
    (SchNet.Locals.ligand_indicator l) (SchNet.Locals.props l)
    (SchNet.Locals.x l).

(** The keys of the dictionary other than the atomic numbers that [forward]
    reads. *)
Definition keys_read_besides_Z : list string :=
  [Properties_cell; Properties_cell_offset; Properties_neighbors;
   Properties_neighbor_mask; Properties_atom_mask; "props"].

(** The lines a returning run with [selectFet = None] prints: the size of
    the slice of line 255, the size of the initial features in the combined
    mode, and the positions tensor of the instance. *)
Definition lines_printed (self : SchNet.t) (li : list nat)
    (x : tensor scalar) : list (list parg) :=
  [[PStr "li: "; PSize li]] ++
  (if SchNet.chargeEmbedding self then [[PSize (tshape x)]] else []) ++
  [[PValue (VFloat (SchNet.newpos self))]].

(** Whether [props[i][k][0] == 1] holds. *)
Definition marked (props : value) (i k : nat) : bool :=
  match SchNet.eq_one_at props i k with
  | Ok b => b
  | Raise _ => false
  end.

(** The line the loop of lines 259-268 prints for the atom [k] of the
    batch entry [i]. *)
Definition line_of_atom (props : value) (i k : nat) : list parg :=
  if marked props i k then [PStr "prot"; PInt (Z.of_nat i)] else [PStr "lig"].

(** The lines it prints for the batch entry [i] of [A] atoms: one line per
    atom, and one more when no atom is marked. *)
Definition lines_of_entry (props : value) (A i : nat) : list (list parg) :=
  map (line_of_atom props i) (seq 0 A) ++
  (if existsb (marked props i) (seq 0 A) then []
   else [[PInt (Z.of_nat i); PStr " has no prot"]]).

(** The lines of lines 257-269 for [B] batch entries of [A] atoms. *)
Definition lines_selected (props : value) (B A : nat) : list (list parg) :=
  flat_map (lines_of_entry props A) (seq 0 B) ++ [[PValue props]].

(** The instance with another value of [return_intermediate]. *)
Definition set_return_intermediate (self : SchNet.t)
    (return_intermediate : bool) : SchNet.t :=
  SchNet.mk (SchNet.chargeEmbedding self) (SchNet.n_atom_basis self)
    (SchNet.selectFet self) (SchNet.embedding self) (SchNet.dense self)
    (SchNet.distance_expansion self) (SchNet.interactions self)
    (SchNet.use_noise self) (SchNet.noise_mean self) (SchNet.noise_std self)
    return_intermediate (SchNet.charged_systems self)
    (SchNet.charge self) (SchNet.newpos self).

End Further_vocabulary.

(** Further arguments and values of the concrete interpretation. *)
Module Samples.
Import Concrete.

(** Features from the column [s] of the properties alone, one block. *)
Definition args_select (s : Z) : SchNet.Args.t :=
  SchNet.Args.mk 4 (FiltersInt 3) 1 5%Z 4 false false false 100 HardCutoff
    false None false false 0%Z 1%Z false (Some s).

(** Two blocks with the filter widths 2 and 3, and [coupled_interactions]. *)
Definition args_widths : SchNet.Args.t :=
  SchNet.Args.mk 4 (FiltersList [2; 3]) 2 5%Z 4 false true false 100
    HardCutoff false None false false 0%Z 1%Z true None.

(** Features from all properties alone, one block. *)
Definition args_props_only : SchNet.Args.t :=
  SchNet.Args.mk 4 (FiltersInt 3) 1 5%Z 4 false false false 100 HardCutoff
    false None false false 0%Z 1%Z false None.

Definition no_dense : Dense := mkDense 0 0 no_tensor None None.

Definition no_block : SchNetInteraction.t :=
  SchNetInteraction.mk (no_dense, no_dense) 0%Z (0, 0) no_dense.

(** A block of four features, four Gaussians and three filters built in
    [world0]. *)
Definition block0 : SchNetInteraction.t :=
  get no_block (SchNetInteraction.__init__ 4 4 3 5%Z HardCutoff false world0).2.

(** The lookup table of an instance. *)
Definition no_embedding : Embedding := mkEmbedding 0 0 0 no_tensor.

Definition table_of (self : SchNet.t) : Embedding :=
  default no_embedding (SchNet.embedding self).

(** Features, distances and expanded distances of two atoms, each the only
    neighbour of the other. *)
Definition features0 : tensor Z := Tensor [1; 2; 4] [1; 2; 3; 4; 5; 6; 7; 8]%Z.

Definition distances0 : tensor Z := Tensor [1; 2; 1] [0; 2]%Z.

Definition expanded0 : tensor Z :=
  Tensor [1; 2; 1; 4] [0; 0; 0; 0; 2; 2; 2; 2]%Z.

Definition neighbors0 : value := VLong (Tensor [1; 2; 1] [1; 0]%Z).

Definition neighbor_mask0 : value := VFloat (Tensor [1; 2; 1] [1; 1]%Z).

(** Whether an optional attribute is set. *)
Definition present {X} (o : option X) : bool :=
  match o with
  | Some _ => true
  | None => false
  end.

(** The batch with a padding atom in place of the second atom, and the
    batch with an atomic number outside the table. *)
Definition batch_Z (atomic_numbers : value) : gmap string value :=
  <[ "_atomic_numbers" := atomic_numbers ]> (batch props8 positions0).

End Samples.

(* ===================================================================== *)
(** ** Tensor operations at small inputs *)
(* ===================================================================== *)

Example slice2_last_column :
  slice2 (Tensor [1; 2; 3] [1; 2; 3; 4; 5; 6]%Z) 2 3 = Ok (Tensor [1; 2; 1] [3; 6]%Z).
Proof. reflexivity. Qed.

Example slice2_negative :
  slice2 (Tensor [1; 2; 3] [1; 2; 3; 4; 5; 6]%Z) (-2) (-1) = Ok (Tensor [1; 2; 1] [2; 5]%Z).
Proof. reflexivity. Qed.

Example slice2_out_of_range :
  slice2 (Tensor [1; 2; 3] [1; 2; 3; 4; 5; 6]%Z) 7 8 = Ok (Tensor [1; 2; 0] []).
Proof. reflexivity. Qed.

Example tbinop_broadcast :
  tbinop 0%Z Z.add (Tensor [2; 2] [1; 2; 3; 4]%Z) (Tensor [1; 2] [10; 20]%Z)
  = Ok (Tensor [2; 2] [11; 22; 13; 24]%Z).
Proof. reflexivity. Qed.

Example tbinop_mismatch :
  tbinop 0%Z Z.add (Tensor [1; 2] [1; 2]%Z) (Tensor [1; 3] [1; 2; 3]%Z)
  = Raise RuntimeError.
Proof. reflexivity. Qed.

Example cat2_example :
  cat2 (Tensor [1; 2; 1] [1; 2]%Z) (Tensor [1; 2; 2] [10; 11; 20; 21]%Z)
  = Ok (Tensor [1; 2; 3] [1; 10; 11; 2; 20; 21]%Z).
Proof. reflexivity. Qed.

Example sum_dim1_example :
  sum_dim1_keepdim 0%Z Z.add (Tensor [2; 3] [1; 1; 0; 1; 0; 0]%Z)
  = Ok (Tensor [2; 1] [2; 1]%Z).
Proof. reflexivity. Qed.

(* ===================================================================== *)
(** ** Reasoning about computations *)
(* ===================================================================== *)

Section Monad_lemmas.
Context `{Numeric}.

Lemma M_bind_unfold {X Y} (c : M X) (f : X → M Y) (w : World) :
  (c ≫= f) w = match c w with
               | (w', Ok x) => f x w'
               | (w', Raise e) => (w', Raise e)
               end.
Proof. reflexivity. Qed.

(** Two computations that agree step by step agree. *)
Lemma M_bind_ext {X Y} (c c' : M X) (f f' : X → M Y) (w : World) :
  c w = c' w → (∀ x w', f x w' = f' x w') → (c ≫= f) w = (c' ≫= f') w.
Proof.
  intros Hc Hf. rewrite !M_bind_unfold, Hc.
  destruct (c' w) as [w' [x|e]]; [apply Hf | reflexivity].
Qed.

(** A function applied to the result commutes with the bindings before. *)
Lemma M_bind_map {X Y Z} (c : M X) (f : X → M Y) (f' : X → M Z) (g : Y → Z)
    (w : World) :
  (∀ x w', f' x w' = ((f x w').1, g <$> (f x w').2)) →
  (c ≫= f') w = (((c ≫= f) w).1, g <$> ((c ≫= f) w).2).
Proof.
  intros Hf. rewrite !M_bind_unfold.
  destruct (c w) as [w' [x|e]]; [apply Hf | reflexivity].
Qed.

Lemma M_bind_Ok {X Y} (c : M X) (f : X → M Y) (w w' : World) (y : Y) :
  (c ≫= f) w = (w', Ok y) ↔ ∃ x w1, c w = (w1, Ok x) ∧ f x w1 = (w', Ok y).
Proof.
  rewrite M_bind_unfold. split.
  - destruct (c w) as [w1 [x|e]]; [eauto | discriminate].
  - intros (x & w1 & -> & Hf). exact Hf.
Qed.

Lemma lift_Ok {X} (r : result X) (w w' : World) (x : X) :
  lift r w = (w', Ok x) ↔ w' = w ∧ r = Ok x.
Proof. unfold lift. split; [intros Heq; by simplify_eq | by intros [-> ->]]. Qed.

Lemma M_lift_bind {X Y} (r : result X) (f : X → M Y) (w : World) :
  (lift r ≫= f) w = match r with
                    | Ok x => f x w
                    | Raise e => (w, Raise e)
                    end.
Proof. by destruct r. Qed.

Lemma mret_Ok {X} (x y : X) (w w' : World) :
  (mret x : M X) w = (w', Ok y) ↔ w' = w ∧ y = x.
Proof.
  change ((w, Ok x) = (w', Ok y) ↔ w' = w ∧ y = x).
  split; [intros Heq; by simplify_eq | by intros [-> ->]].
Qed.

Lemma result_bind_Ok {X Y} (r : result X) (f : X → result Y) (y : Y) :
  r ≫= f = Ok y ↔ ∃ x, r = Ok x ∧ f x = Ok y.
Proof.
  destruct r as [x|e]; simpl; split.
  - eauto.
  - intros (x' & [= ->] & Hf). exact Hf.
  - discriminate.
  - intros (x' & [=] & _).
Qed.

Lemma getitem_Ok (inputs : gmap string value) (key : string) (w w' : World)
    (v : value) :
  getitem inputs key w = (w', Ok v) ↔ w' = w ∧ inputs !! key = Some v.
Proof.
  unfold getitem. destruct (inputs !! key) as [v'|].
  - rewrite mret_Ok. split; intros [-> Hv]; split; congruence.
  - unfold raise. rewrite lift_Ok. split; intros [_ Hv]; discriminate.
Qed.

(** The loop over a list, one step at a time. *)
Lemma for_each_cons {A S} (a : A) (l : list A) (body : A → S → M S) (s : S) :
  for_each (a :: l) body s = (body a s ≫= for_each l body).
Proof. reflexivity. Qed.

Lemma for_each_ext {A S} (l : list A) (body body' : A → S → M S) (s : S)
    (w : World) :
  (∀ a s w, body a s w = body' a s w) →
  for_each l body s w = for_each l body' s w.
Proof.
  intros Hb. revert s w. induction l as [|a l IH]; intros s w; [done|].
  rewrite !for_each_cons. apply M_bind_ext; [apply Hb | apply IH].
Qed.

End Monad_lemmas.

(** Invert a successful run, binding after binding. *)
Ltac inv_run H :=
  repeat match type of H with
    | (_ ≫= _) _ = (_, Ok _) =>
        let x := fresh "x" in let w := fresh "w" in
        let H1 := fresh "Hrun" in
        apply M_bind_Ok in H as (x & w & H1 & H)
    end.

(* ===================================================================== *)
(** ** Configuration that does not reach the output *)
(* ===================================================================== *)

Section Independence.
Context `{Package}.

Lemma forward_distances_noise (self : SchNet.t) (use_noise : bool)
    (noise_mean noise_std : scalar) (l : SchNet.Locals.t) (w : World) :
  SchNet.forward_distances (set_noise self use_noise noise_mean noise_std) l w
  = SchNet.forward_distances self l w.
Proof.
  unfold SchNet.forward_distances.
  apply M_bind_ext; [done | intros _ w1].
  apply M_bind_ext; [done | intros r w2].
  rewrite !M_bind_unfold. unfold cuda.
  destruct (cuda_available w2); [|done].
  cbn [SchNet.use_noise set_noise].
  destruct use_noise, (SchNet.use_noise self); reflexivity.
Qed.

(** The constructor stores the noise configuration and does nothing else
    with it: other arguments give the same instance up to the three
    attributes, and the same world. *)
Lemma init_noise (a : SchNet.Args.t) (use_noise : bool)
    (noise_mean noise_std : scalar) (w : World) :
  SchNet.__init__ (args_set_noise a use_noise noise_mean noise_std) w
  = ((SchNet.__init__ a w).1,
     (λ self, set_noise self use_noise noise_mean noise_std)
     <$> (SchNet.__init__ a w).2).
Proof.
  unfold SchNet.__init__.
  change (SchNet.init_embedding (args_set_noise a use_noise noise_mean noise_std))
    with (SchNet.init_embedding a).
  change (SchNet.init_interactions
            (args_set_noise a use_noise noise_mean noise_std))
    with (SchNet.init_interactions a).
  cbn [args_set_noise SchNet.Args.charged_systems SchNet.Args.n_atom_basis
       SchNet.Args.distance_expansion SchNet.Args.cutoff
       SchNet.Args.n_gaussians SchNet.Args.trainable_gaussians
       SchNet.Args.chargeEmbedding SchNet.Args.selectFet
       SchNet.Args.use_noise SchNet.Args.noise_mean SchNet.Args.noise_std
       SchNet.Args.return_intermediate].
  apply M_bind_map. intros [e d] w1.
  apply M_bind_map. intros blocks w2.
  apply M_bind_map. intros charge w3.
  apply M_bind_map. intros r w4.
  apply M_bind_map. intros newpos w5.
  reflexivity.
Qed.

(** C9.  The noise configuration is a no-op: whatever [use_noise],
    [noise_mean] and [noise_std] are set to, [SchNet.forward] returns the same
    result, prints the same lines and leaves the random generator in the same
    state.  The noise tensor is drawn and dropped, and [noise_std] is not
    read. *)
Theorem forward_ignores_noise (self : SchNet.t) (use_noise : bool)
    (noise_mean noise_std : scalar) (inputs : gmap string value) (w : World) :
  SchNet.forward (set_noise self use_noise noise_mean noise_std) inputs w
  = SchNet.forward self inputs w.
Proof.
  unfold SchNet.forward.
  apply M_bind_ext; [reflexivity | intros l w1].
  apply M_bind_ext; [apply forward_distances_noise | intros [r_ij f_ij] w2].
  reflexivity.
Qed.

Lemma getitem_agree (i1 i2 : gmap string value) (key : string) :
  i1 !! key = i2 !! key → getitem i1 key = getitem i2 key.
Proof. unfold getitem. by intros ->. Qed.

Lemma select_props_agree (self : SchNet.t) (i1 i2 : gmap string value) :
  i1 !! "props" = i2 !! "props" →
  SchNet.select_props self i1 = SchNet.select_props self i2.
Proof.
  intros Hp. unfold SchNet.select_props.
  by rewrite (getitem_agree i1 i2 "props").
Qed.

Lemma forward_embed_agree (self : SchNet.t) (i1 i2 : gmap string value) :
  (∀ key, key ∈ keys_read → i1 !! key = i2 !! key) →
  SchNet.forward_embed self i1 = SchNet.forward_embed self i2.
Proof.
  intros Hk. unfold SchNet.forward_embed.
  rewrite (getitem_agree i1 i2 Properties_Z),
    (getitem_agree i1 i2 Properties_cell),
    (getitem_agree i1 i2 Properties_cell_offset),
    (getitem_agree i1 i2 Properties_neighbors),
    (getitem_agree i1 i2 Properties_neighbor_mask),
    (getitem_agree i1 i2 Properties_atom_mask),
    (getitem_agree i1 i2 "props"),
    (select_props_agree self i1 i2)
    by (apply Hk; unfold keys_read; set_solver).
  reflexivity.
Qed.

(** C2, as the code has it.  The charge branch is guarded by the constant
    [False], so the charge vector is never added: an instance with any
    configuration of the charge feature, on a batch with a charge entry,
    runs as the instance without the feature does on the batch without the
    entry.  The tensor that enters the first block is the output of the
    feature initializer in both.  The key of the charge is assumed to differ
    from the keys that are read. *)
Theorem forward_never_adds_charge (self : SchNet.t) (charged_systems : bool)
    (charge : option (tensor scalar)) (inputs : gmap string value)
    (q : value) (w : World) :
  Properties_charge ∉ keys_read →
  SchNet.forward (set_charge self charged_systems charge)
    (<[Properties_charge := q]> inputs) w
  = SchNet.forward (set_charge self false None)
      (delete Properties_charge inputs) w.
Proof.
  intros Hq.
  transitivity (SchNet.forward (set_charge self false None)
                  (<[Properties_charge := q]> inputs) w); [reflexivity|].
  unfold SchNet.forward.
  rewrite (forward_embed_agree _ _ (delete Properties_charge inputs));
    [reflexivity|].
  intros key Hkey.
  assert (Properties_charge ≠ key) as Hne
    by (intros Heq; apply Hq; rewrite Heq; exact Hkey).
  by rewrite lookup_insert_ne, lookup_delete_ne.
Qed.

(** C8.  Two batches that differ in the positions entry only give the same
    run of [SchNet.forward] on the same instance: the distances are computed
    from [self.newpos], and the entry under [Properties.R] is not read.  The
    key of the positions is assumed to differ from the keys that are read. *)
Theorem forward_independent_of_positions (self : SchNet.t)
    (i1 i2 : gmap string value) (w : World) :
  Properties_R ∉ keys_read →
  (∀ key, key ≠ Properties_R → i1 !! key = i2 !! key) →
  SchNet.forward self i1 w = SchNet.forward self i2 w.
Proof.
  intros HR Hagree. unfold SchNet.forward.
  rewrite (forward_embed_agree self i1 i2); [reflexivity|].
  intros key Hkey. apply Hagree. intros ->. exact (HR Hkey).
Qed.

End Independence.

(* ===================================================================== *)
(** ** The interaction loop *)
(* ===================================================================== *)

Section Loop.
Context `{Package}.

(** A block's [forward] is the output affine transform of its convolution. *)
Lemma interaction_forward_spec (block : SchNetInteraction.t)
    (x r_ij : tensor scalar) (neighbors neighbor_mask : value)
    (f_ij : tensor scalar) :
  SchNetInteraction.forward block x r_ij neighbors neighbor_mask (Some f_ij)
  = outputAffine_of_CFConv block x r_ij neighbors neighbor_mask f_ij.
Proof.
  unfold SchNetInteraction.forward, outputAffine_of_CFConv.
  destruct (CFConv_forward _ _ _ _ _ _) as [v|e]; simpl; [|done].
  by destruct (Dense_forward _ v).
Qed.

Lemma additive_updates_length (blocks : list SchNetInteraction.t)
    (r_ij : tensor scalar) (neighbors neighbor_mask : value)
    (f_ij x : tensor scalar) (xs : list (tensor scalar)) :
  additive_updates blocks r_ij neighbors neighbor_mask f_ij x = Ok xs →
  length xs = length blocks.
Proof.
  revert x xs. induction blocks as [|b blocks IH]; intros x xs; simpl.
  - by intros [= <-].
  - intros (d & _ & (x' & _ & (tl & Htl & [= <-])%result_bind_Ok)%result_bind_Ok)
      %result_bind_Ok.
    simpl. f_equal. eauto.
Qed.

(** Block [i] takes the tensor at position [i] of the sequence to the one at
    position [i + 1] by adding its update. *)
Lemma additive_updates_step (blocks : list SchNetInteraction.t)
    (r_ij : tensor scalar) (neighbors neighbor_mask : value)
    (f_ij x : tensor scalar) (xs : list (tensor scalar)) (i : nat)
    (block : SchNetInteraction.t) :
  additive_updates blocks r_ij neighbors neighbor_mask f_ij x = Ok xs →
  blocks !! i = Some block →
  ∃ xi deltaX xi',
    (x :: xs) !! i = Some xi ∧
    outputAffine_of_CFConv block xi r_ij neighbors neighbor_mask f_ij
    = Ok deltaX ∧
    tadd xi deltaX = Ok xi' ∧
    (x :: xs) !! S i = Some xi'.
Proof.
  revert x xs i. induction blocks as [|b blocks IH]; intros x xs i; [done|].
  simpl.
  intros (d & Hd & (x' & Hx' & (tl & Htl & [= <-])%result_bind_Ok)
            %result_bind_Ok)%result_bind_Ok Hi.
  destruct i as [|i]; simpl in Hi.
  - injection Hi as ->. by exists x, d, x'.
  - destruct (IH _ _ _ Htl Hi) as (xi & dx & xi' & ? & ? & ? & ?).
    by exists xi, dx, xi'.
Qed.

(** The loop of lines 317-321 computes the sequence of additive updates; the
    list [xs] grows by it when intermediates are recorded. *)
Lemma interaction_loop (ri : bool) (blocks : list SchNetInteraction.t)
    (r_ij : tensor scalar) (neighbors neighbor_mask : value)
    (f_ij x : tensor scalar) (xs : list (tensor scalar)) (w : World) :
  for_each blocks
    (λ interaction '(x, xs),
       v ← lift (SchNetInteraction.forward interaction x r_ij neighbors
                   neighbor_mask (Some f_ij));
       x ← lift (tadd x v);
       mret (x, if ri then xs ++ [x] else xs))
    (x, xs) w
  = (w, (λ tr, (default x (last tr), if ri then xs ++ tr else xs))
        <$> additive_updates blocks r_ij neighbors neighbor_mask f_ij x).
Proof.
  revert x xs. induction blocks as [|b blocks IH]; intros x xs.
  - simpl. destruct ri; by rewrite ?app_nil_r.
  - rewrite for_each_cons, M_bind_unfold, !M_lift_bind, interaction_forward_spec.
    cbn [additive_updates].
    destruct (outputAffine_of_CFConv _ _ _ _ _ _) as [d|e]; [|reflexivity].
    rewrite M_lift_bind. cbn [mbind result_bind].
    destruct (tadd x d) as [x'|e]; [|reflexivity].
    change ((mret (x', if ri then xs ++ [x'] else xs) : M _) w)
      with (w, Ok (x', if ri then xs ++ [x'] else xs)).
    cbv beta iota. rewrite IH. cbn [mbind result_bind].
    destruct (additive_updates _ _ _ _ _ x') as [tr|e]; [|reflexivity].
    cbn. f_equal. f_equal. f_equal.
    + rewrite last_cons. by destruct (last tr).
    + destruct ri; [rewrite <- app_assoc|]; reflexivity.
Qed.

End Loop.

(* ===================================================================== *)
(** ** The constructor *)
(* ===================================================================== *)

Section Constructor.
Context `{Package}.

Lemma draws_only_returns {X} (c : M X) (P : X → Prop) :
  draws_only c P → returns c P.
Proof.
  intros Hc w w' x Hrun. destruct (Hc w) as (s & x' & Hrun' & HP).
  rewrite Hrun in Hrun'. by simplify_eq.
Qed.


Lemma draws_only_ret {X} (x : X) (P : X → Prop) :
  P x → draws_only (mret x) P.
Proof. intros HP [s out cu]. by exists s, x. Qed.

Lemma draws_only_bind {X Y} (c : M X) (f : X → M Y) (P : X → Prop)
    (Q : Y → Prop) :
  draws_only c P → (∀ x, P x → draws_only (f x) Q) →
  draws_only (c ≫= f) Q.
Proof.
  intros Hc Hf w. destruct (Hc w) as (s & x & Hrun & HP).
  destruct (Hf x HP (mkWorld s (stdout w) (cuda_available w)))
    as (s' & y & Hrun' & HQ).
  exists s', y. by rewrite M_bind_unfold, Hrun, Hrun'.
Qed.

Lemma draws_only_draw {X} (f : Seed → X * Seed) (P : X → Prop) :
  (∀ s, P (f s).1) → draws_only (draw f) P.
Proof.
  intros HP w. unfold draw. specialize (HP (rng w)).
  destruct (f (rng w)) as [x s]. by exists s, x.
Qed.

Lemma draws_only_fill (d : sampler) (shape : list nat) :
  draws_only (fill d shape) (λ t, tshape t = shape).
Proof.
  apply draws_only_draw. intros s. by destruct (sample _ _ s).
Qed.

Lemma returns_ret {X} (x : X) (P : X → Prop) : P x → returns (mret x) P.
Proof. intros HP w w' y [_ ->]%mret_Ok. exact HP. Qed.

Lemma returns_raise {X} (e : exn) (P : X → Prop) : returns (raise e) P.
Proof. intros w w' y [_ [=]]%lift_Ok. Qed.

Lemma returns_bind {X Y} (c : M X) (f : X → M Y) (P : X → Prop)
    (Q : Y → Prop) :
  returns c P → (∀ x, P x → returns (f x) Q) → returns (c ≫= f) Q.
Proof.
  intros Hc Hf w w' y (x & w1 & Hrun & Hrun')%M_bind_Ok.
  exact (Hf x (Hc _ _ _ Hrun) _ _ _ Hrun').
Qed.


Lemma comprehension_returns {A B} (f : A → M B) (l : list A) (P : B → Prop) :
  (∀ a, returns (f a) P) →
  returns (comprehension f l) (λ bs, length bs = length l ∧ Forall P bs).
Proof.
  intros Hf. induction l as [|a l IH]; simpl.
  - by apply returns_ret.
  - apply (returns_bind _ _ P); [apply Hf|]. intros b Hb.
    apply (returns_bind _ _ (λ bs, length bs = length l ∧ Forall P bs));
      [apply IH|].
    intros bs [Hlen Hall]. apply returns_ret. simpl. auto.
Qed.

Lemma Dense_init_draws (n_in n_out : nat) (with_bias : bool)
    (act : option (scalar → scalar)) :
  draws_only (Dense_init n_in n_out with_bias act)
    (λ d, in_features d = n_in ∧ out_features d = n_out).
Proof.
  unfold Dense_init.
  apply (draws_only_bind _ _ _ _ (draws_only_fill _ _)).
  intros t _. by apply draws_only_ret.
Qed.

Lemma Embedding_init_draws (num dim pad : nat) :
  pad < num →
  draws_only (Embedding_init num dim pad)
    (λ e, num_embeddings e = num ∧ embedding_dim e = dim).
Proof.
  intros Hpad. unfold Embedding_init. rewrite decide_True by done.
  apply (draws_only_bind _ _ _ _ (draws_only_fill _ _)).
  intros t _. by apply draws_only_ret.
Qed.

Lemma Embedding_init_returns (num dim pad : nat) :
  returns (Embedding_init num dim pad)
    (λ e, num_embeddings e = num ∧ embedding_dim e = dim).
Proof.
  destruct (decide (pad < num)) as [Hpad|Hpad].
  - by apply draws_only_returns, Embedding_init_draws.
  - unfold Embedding_init. rewrite decide_False by done. apply returns_raise.
Qed.

Lemma interaction_init_draws (n_atom_basis n_spatial_basis n_filters : nat)
    (cutoff : scalar) (cutoff_network : scalar → CutoffNetwork)
    (normalize_filter : bool) :
  draws_only (SchNetInteraction.__init__ n_atom_basis n_spatial_basis
                n_filters cutoff cutoff_network normalize_filter)
    (block_width n_atom_basis).
Proof.
  unfold SchNetInteraction.__init__.
  apply (draws_only_bind _ _ _ _ (Dense_init_draws _ _ _ _)). intros f1 _.
  apply (draws_only_bind _ _ _ _ (Dense_init_draws _ _ _ _)). intros f2 _.
  apply (draws_only_bind _ _ (λ _, True)); [by apply draws_only_draw|].
  intros cf _.
  apply (draws_only_bind _ _ _ _ (Dense_init_draws _ _ _ _)). intros d Hd.
  by apply draws_only_ret.
Qed.

Lemma returns_True {X} (c : M X) : returns c (λ _, True).
Proof. by intros w w' x _. Qed.




Lemma cuda_returns (t : tensor scalar) : returns (cuda t) (λ t', t' = t).
Proof.
  intros w w' t'. unfold cuda. destruct (cuda_available w); intros Heq;
    by simplify_eq.
Qed.

Lemma init_embedding_returns (a : SchNet.Args.t) :
  returns (SchNet.init_embedding a) (embedding_built a).
Proof.
  unfold SchNet.init_embedding, embedding_built.
  destruct (SchNet.Args.chargeEmbedding a), (SchNet.Args.selectFet a) as [s|];
    cbn [andb negb]; repeat case_bool_decide; try done.
  all: repeat first
    [ apply (returns_bind _ _ _ _ (Embedding_init_returns _ _ _)); intros e [? ?]
    | apply (returns_bind _ _ _ _
               (draws_only_returns _ _ (Dense_init_draws _ _ _ _)));
      intros d [? ?]
    | apply returns_ret ].
  all: simpl; eauto 10.
Qed.


Lemma init_interactions_returns (a : SchNet.Args.t) :
  returns (SchNet.init_interactions a) (blocks_built a).
Proof.
  unfold SchNet.init_interactions, blocks_built.
  pose proof (λ n, draws_only_returns _ _
    (interaction_init_draws (SchNet.Args.n_atom_basis a)
       (SchNet.Args.n_gaussians a) n (SchNet.Args.cutoff a)
       (SchNet.Args.cutoff_network a) (SchNet.Args.normalize_filter a)))
    as Hblock.
  destruct (SchNet.Args.n_filters a) as [n|l].
  - destruct (SchNet.Args.coupled_interactions a).
    + apply (returns_bind _ _ _ _ (Hblock n)). intros b Hb.
      apply returns_ret. rewrite length_replicate.
      split_and!; [done | by apply Forall_replicate | eauto].
    + intros w w' bs Hrun.
      apply (comprehension_returns _ _ _ (λ _, Hblock n)) in Hrun
        as [Hlen Hall].
      rewrite length_seq in Hlen. done.
  - intros w w' bs Hrun.
    eapply (comprehension_returns _ _
              (block_width (SchNet.Args.n_atom_basis a))) in Hrun
      as [Hlen Hall].
    + rewrite length_seq in Hlen. done.
    + intros i. destruct (l !! i); [apply Hblock | apply returns_raise].
Qed.


Lemma built_from_intro (a : SchNet.Args.t) (e : option Embedding)
    (d : Dense) (blocks : list SchNetInteraction.t)
    (de : DistanceExpansion) (charge : option (tensor scalar))
    (newpos : tensor scalar) :
  embedding_built a (e, d) → blocks_built a blocks →
  tshape newpos = [1; 600; 3] →
  built_from a
    (SchNet.mk (SchNet.Args.chargeEmbedding a) (SchNet.Args.n_atom_basis a)
       (SchNet.Args.selectFet a) e d de blocks (SchNet.Args.use_noise a)
       (SchNet.Args.noise_mean a) (SchNet.Args.noise_std a)
       (SchNet.Args.return_intermediate a) (SchNet.Args.charged_systems a)
       charge newpos).
Proof.
  intros (Hin & Hout & He) (Hlen & Hall & Hcoupled) Hpos.
  by constructor.
Qed.

(** Whatever the constructor returns is built as its arguments say. *)
Lemma init_returns (a : SchNet.Args.t) :
  returns (SchNet.__init__ a) (built_from a).
Proof.
  unfold SchNet.__init__.
  apply (returns_bind _ _ _ _ (init_embedding_returns a)). intros [e d] He.
  apply (returns_bind _ _ _ _ (init_interactions_returns a)). intros bs Hbs.
  apply (returns_bind _ _ _ _ (returns_True _)). intros charge _.
  apply (returns_bind _ _ _ _
           (draws_only_returns _ _ (draws_only_fill _ _))). intros r Hr.
  apply (returns_bind _ _ _ _ (cuda_returns _)). intros newpos ->.
  apply returns_ret. by apply built_from_intro.
Qed.


End Constructor.

(* ===================================================================== *)
(** ** Shapes *)
(* ===================================================================== *)

Section Shapes.
Context `{Numeric}.

Lemma split_last_Some (s lead : list nat) (k : nat) :
  split_last s = Some (lead, k) ↔ s = lead ++ [k].
Proof.
  unfold split_last. split.
  - destruct (reverse s) as [|k' l] eqn:Hrev; [done|].
    intros [= <- <-]. rewrite <- (reverse_involutive s), Hrev.
    by rewrite reverse_cons.
  - intros ->. rewrite reverse_app, reverse_singleton. simpl.
    by rewrite reverse_involutive.
Qed.

Lemma split_last_3 (B A n : nat) : split_last [B; A; n] = Some ([B; A], n).
Proof. reflexivity. Qed.

Lemma broadcast_rev_same (s : list nat) : broadcast_rev s s = Some s.
Proof.
  induction s as [|d s IH]; [done|]. simpl.
  rewrite decide_True by done. simpl. by rewrite IH.
Qed.

Lemma broadcast_shapes_same (s : list nat) : broadcast_shapes s s = Some s.
Proof.
  unfold broadcast_shapes. rewrite broadcast_rev_same. simpl.
  by rewrite reverse_involutive.
Qed.

Lemma tbinop_shape {A} (dflt : A) (f : A → A → A) (a b c : tensor A) :
  tbinop dflt f a b = Ok c →
  broadcast_shapes (tshape a) (tshape b) = Some (tshape c).
Proof.
  unfold tbinop. destruct (broadcast_shapes _ _) as [s|]; [|done].
  by intros [= <-].
Qed.

Lemma tadd_same_shape (a b c : tensor scalar) (s : list nat) :
  tadd a b = Ok c → tshape a = s → tshape b = s → tshape c = s.
Proof.
  intros Hadd%tbinop_shape Ha Hb.
  rewrite Ha, Hb, broadcast_shapes_same in Hadd. by injection Hadd.
Qed.

Lemma slice2_shape {A} (t t' : tensor A) (start stop : Z) :
  slice2 t start stop = Ok t' →
  ∃ d0 d1 d2 rest,
    tshape t = d0 :: d1 :: d2 :: rest ∧
    tshape t' = d0 :: d1 :: (slice_index stop d2 - slice_index start d2) :: rest.
Proof.
  unfold slice2. destruct (tshape t) as [|d0 [|d1 [|d2 rest]]]; try done.
  intros [= <-]. by exists d0, d1, d2, rest.
Qed.

Lemma value_slice2_shape (v v' : value) (start stop : Z) :
  value_slice2 v start stop = Ok v' →
  ∃ d0 d1 d2 rest,
    value_shape v = Some (d0 :: d1 :: d2 :: rest) ∧
    value_shape v'
    = Some (d0 :: d1 :: (slice_index stop d2 - slice_index start d2) :: rest).
Proof.
  destruct v as [|t|t]; simpl; [done| |];
    destruct (slice2 t start stop) as [t'|] eqn:Hs; simpl; try done;
    intros [= <-]; apply slice2_shape in Hs as (d0 & d1 & d2 & rest & -> & Hs);
    exists d0, d1, d2, rest; simpl; by rewrite Hs.
Qed.

Lemma Dense_forward_shape (d : Dense) (x y : tensor scalar) :
  Dense_forward d x = Ok y →
  ∃ lead, tshape x = lead ++ [in_features d] ∧
          tshape y = lead ++ [out_features d].
Proof.
  unfold Dense_forward.
  destruct (split_last (tshape x)) as [[lead k]|] eqn:Hs; [|done].
  apply split_last_Some in Hs. case_decide; [|done].
  intros [= <-]. exists lead. by subst k.
Qed.

Lemma Dense_forward_shape_3 (d : Dense) (x y : tensor scalar) (B A n : nat) :
  Dense_forward d x = Ok y → tshape x = [B; A; n] →
  n = in_features d ∧ tshape y = [B; A; out_features d].
Proof.
  intros (lead & Hx & Hy)%Dense_forward_shape Hs.
  rewrite Hs in Hx. change [B; A; n] with ([B; A] ++ [n]) in Hx.
  apply app_inj_tail in Hx as [<- ->]. by rewrite Hy.
Qed.

Lemma as_float_Ok (v : value) (t : tensor scalar) :
  as_float v = Ok t ↔ v = VFloat t.
Proof. destruct v; simpl; split; congruence. Qed.

Lemma Embedding_forward_shape (e : Embedding) (v : value)
    (y : tensor scalar) :
  Embedding_forward e v = Ok y →
  ∃ idx, v = VLong idx ∧ tshape y = tshape idx ++ [embedding_dim e].
Proof.
  destruct v as [|idx|t]; simpl; try done.
  destruct (lookup_rows e (tdata idx)); simpl; [|done].
  intros [= <-]. by exists idx.
Qed.

(** Concatenating to a tensor of shape [(B, A, n)] a tensor whose last
    extent is [m] gives shape [(B, A, n + m)]. *)
Lemma cat2_shape {A} (a b c : tensor A) (B A' n m : nat) (lead : list nat) :
  cat2 a b = Ok c → tshape a = [B; A'; n] → tshape b = lead ++ [m] →
  tshape c = [B; A'; n + m].
Proof.
  unfold cat2. intros Hcat Ha Hb. rewrite Ha, Hb in Hcat.
  case_decide as H0.
  { destruct lead as [|? [|]]; simplify_eq/=.
    by rewrite Ha, Nat.add_0_r. }
  case_decide; [done|].
  destruct lead as [|b0 [|b1 [|b2 lead]]]; try done.
  - simpl in Hcat. case_decide as Heq; [|done].
    destruct Heq as (-> & -> & _). by simplify_eq/=.
  - simpl in Hcat. case_decide as Heq; [|done].
    destruct Heq as (_ & _ & Heq). by destruct lead.
Qed.

End Shapes.

(* ===================================================================== *)
(** ** The stages of [forward] *)
(* ===================================================================== *)

Section Stages.
Context `{Package}.

Lemma select_props_Ok (self : SchNet.t) (inputs : gmap string value)
    (w w' : World) (props : value) :
  SchNet.select_props self inputs w = (w', Ok props) →
  ∃ all, inputs !! "props" = Some all ∧
         match SchNet.selectFet self with
         | None => props = all
         | Some s => value_slice2 all s (s + 1) = Ok props
         end.
Proof.
  unfold SchNet.select_props. destruct (SchNet.selectFet self) as [s|].
  - intros Hrun. inv_run Hrun.
    apply getitem_Ok in Hrun0 as [-> Hall].
    apply lift_Ok in Hrun1 as [-> Hslice].
    apply mret_Ok in Hrun as [_ ->]. eauto.
  - intros [_ Hall]%getitem_Ok. eauto.
Qed.

(** What a successful run of lines 247-299 has read and computed. *)
Lemma forward_embed_Ok (self : SchNet.t) (inputs : gmap string value)
    (w w' : World) (l : SchNet.Locals.t) :
  SchNet.forward_embed self inputs w = (w', Ok l) →
  ∃ all w1 w2,
    inputs !! Properties_Z = Some (SchNet.Locals.atomic_numbers l) ∧
    inputs !! Properties_cell = Some (SchNet.Locals.cell l) ∧
    inputs !! Properties_cell_offset = Some (SchNet.Locals.cell_offset l) ∧
    inputs !! Properties_neighbors = Some (SchNet.Locals.neighbors l) ∧
    inputs !! Properties_neighbor_mask
    = Some (SchNet.Locals.neighbor_mask l) ∧
    inputs !! Properties_atom_mask = Some (SchNet.Locals.atom_mask l) ∧
    inputs !! "props" = Some all ∧
    value_slice2 all 7 8 = Ok (SchNet.Locals.ligand_indicator l) ∧
    SchNet.Locals.positions l = SchNet.newpos self ∧
    SchNet.select_props self inputs w1 = (w2, Ok (SchNet.Locals.props l)) ∧
    SchNet.embed self (SchNet.Locals.props l)
      (SchNet.Locals.atomic_numbers l) w2
    = (w', Ok (SchNet.Locals.x l)).
Proof.
  unfold SchNet.forward_embed. cbn [andb]. intros Hrun. inv_run Hrun.
  repeat match goal with
    | Hg : getitem _ _ _ = _ |- _ => apply getitem_Ok in Hg as [-> ?]
    | Hl : lift _ _ = _ |- _ => apply lift_Ok in Hl as [-> ?]
    | Hm : mret _ _ = _ |- _ => apply mret_Ok in Hm as [-> ->]
    end.
  simpl. eexists _, _, _. split_and!; try done; eassumption.
Qed.

(** The affine layer keeps the leading extents of the selected properties;
    when the features are initialised from the properties alone, or the
    number of features is even, the initial tensor has [n_atom_basis]
    features. *)
Lemma embed_shape (a : SchNet.Args.t) (self : SchNet.t)
    (props atomic_numbers : value) (w w' : World) (x : tensor scalar)
    (B A n : nat) :
  built_from a self →
  SchNet.embed self props atomic_numbers w = (w', Ok x) →
  value_shape props = Some [B; A; n] →
  ∃ t, props = VFloat t ∧ n = in_features (SchNet.dense self) ∧
       tshape x
       = [B; A; if SchNet.Args.chargeEmbedding a
                then SchNet.Args.n_atom_basis a / 2
                     + SchNet.Args.n_atom_basis a / 2
                else SchNet.Args.n_atom_basis a].
Proof.
  intros Hb. unfold SchNet.embed.
  pose proof (built_dense_out _ _ Hb) as Hout.
  pose proof (built_embedding _ _ Hb) as Hemb.
  rewrite (built_chargeEmbedding _ _ Hb).
  destruct (SchNet.Args.chargeEmbedding a).
  - intros Hrun Hshape. inv_run Hrun.
    apply lift_Ok in Hrun0 as [-> (t & ->%as_float_Ok & Hd)%result_bind_Ok].
    simpl in Hshape. injection Hshape as Hshape.
    destruct (Dense_forward_shape_3 _ _ _ _ _ _ Hd Hshape) as [-> Hp].
    destruct Hemb as (e & He & Hdim & _). rewrite He in Hrun1.
    apply mret_Ok in Hrun1 as [-> ->].
    apply lift_Ok in Hrun2 as [-> (idx & -> & Hx1)%Embedding_forward_shape].
    apply lift_Ok in Hrun3 as [-> Hcat].
    apply mret_Ok in Hrun as [_ ->].
    exists t. split_and!; [done..|].
    rewrite (cat2_shape _ _ _ _ _ _ _ _ Hcat Hp Hx1). by rewrite Hout, Hdim.
  - intros [_ (t & ->%as_float_Ok & Hd)%result_bind_Ok]%lift_Ok Hshape.
    simpl in Hshape. injection Hshape as Hshape.
    destruct (Dense_forward_shape_3 _ _ _ _ _ _ Hd Hshape) as [-> Hp].
    exists t. by rewrite Hp, Hout.
Qed.

End Stages.

(* ===================================================================== *)
(** ** Properties of [SchNet.forward] *)
(* ===================================================================== *)

Section Forward_properties.
Context `{Package}.

Lemma forward_Ok (self : SchNet.t) (inputs : gmap string value)
    (w w' : World) (out : tensor scalar * option (list (tensor scalar))) :
  SchNet.forward self inputs w = (w', Ok out) →
  ∃ l w1 r_ij f_ij w2,
    SchNet.forward_embed self inputs w = (w1, Ok l) ∧
    SchNet.forward_distances self l w1 = (w2, Ok (r_ij, f_ij)) ∧
    SchNet.forward_interactions self l r_ij f_ij w2 = (w', Ok out).
Proof.
  unfold SchNet.forward. intros Hrun. inv_run Hrun.
  destruct x0 as [r_ij f_ij]. by exists x, w0, r_ij, f_ij, w1.
Qed.

(** Lines 313-324 return the last tensor of the sequence of additive
    updates, and the whole sequence after the initial tensor when
    intermediates are recorded. *)
Lemma forward_interactions_spec (self : SchNet.t) (l : SchNet.Locals.t)
    (r_ij f_ij : tensor scalar) (w : World) :
  SchNet.forward_interactions self l r_ij f_ij w
  = (w, (λ tr, (default (SchNet.Locals.x l) (last tr),
                if SchNet.return_intermediate self
                then Some (SchNet.Locals.x l :: tr) else None))
        <$> additive_updates (SchNet.interactions self) r_ij
              (SchNet.Locals.neighbors l) (SchNet.Locals.neighbor_mask l)
              f_ij (SchNet.Locals.x l)).
Proof.
  unfold SchNet.forward_interactions.
  rewrite M_bind_unfold, interaction_loop.
  destruct (additive_updates _ _ _ _ _ _) as [tr|e]; [|reflexivity].
  cbn. by destruct (SchNet.return_intermediate self).
Qed.

(** C7.  [SchNet.forward] updates the feature tensor additively.  Once the
    initial features and the distances are computed, the run ends in the
    world they left, and its tensor is the last of the sequence obtained by
    taking [x] to [x + outputAffine(CFConv(x, r_ij, neighbors, neighbor_mask,
    f_ij))] block after block, in order; it raises what that sequence
    raises. *)
Theorem forward_updates_additively (self : SchNet.t)
    (inputs : gmap string value) (w w1 w2 : World) (l : SchNet.Locals.t)
    (r_ij f_ij : tensor scalar) :
  SchNet.forward_embed self inputs w = (w1, Ok l) →
  SchNet.forward_distances self l w1 = (w2, Ok (r_ij, f_ij)) →
  ∃ res,
    SchNet.forward self inputs w = (w2, res) ∧
    fst <$> res
    = (λ tr, default (SchNet.Locals.x l) (last tr))
      <$> additive_updates (SchNet.interactions self) r_ij
            (SchNet.Locals.neighbors l) (SchNet.Locals.neighbor_mask l)
            f_ij (SchNet.Locals.x l).
Proof.
  intros Hembed Hdist. unfold SchNet.forward.
  rewrite M_bind_unfold, Hembed, M_bind_unfold, Hdist.
  rewrite forward_interactions_spec. eexists. split; [reflexivity|].
  by destruct (additive_updates _ _ _ _ _ _).
Qed.

(** C5.  With [return_intermediate] and [n_interactions = N], a run of
    [SchNet.forward] that returns gives the final tensor and a list of
    [N + 1] tensors: the initial feature tensor first, then, for each block
    in order, the previous entry plus the block's update; the last entry is
    the final tensor. *)
Theorem forward_returns_intermediates (a : SchNet.Args.t) (self : SchNet.t)
    (w0 w0' : World) (inputs : gmap string value) (w w' : World)
    (x : tensor scalar) (out : option (list (tensor scalar))) :
  SchNet.__init__ a w0 = (w0', Ok self) →
  SchNet.Args.return_intermediate a = true →
  SchNet.forward self inputs w = (w', Ok (x, out)) →
  ∃ l w1 r_ij f_ij xs,
    SchNet.forward_embed self inputs w = (w1, Ok l) ∧
    SchNet.forward_distances self l w1 = (w', Ok (r_ij, f_ij)) ∧
    out = Some xs ∧
    length xs = S (SchNet.Args.n_interactions a) ∧
    xs !! 0 = Some (SchNet.Locals.x l) ∧
    last xs = Some x ∧
    ∀ i block,
      SchNet.interactions self !! i = Some block →
      ∃ xi deltaX xi',
        xs !! i = Some xi ∧
        outputAffine_of_CFConv block xi r_ij (SchNet.Locals.neighbors l)
          (SchNet.Locals.neighbor_mask l) f_ij = Ok deltaX ∧
        tadd xi deltaX = Ok xi' ∧
        xs !! S i = Some xi'.
Proof.
  intros Hb%init_returns Hri (l & w1 & r_ij & f_ij & w2 & Hembed & Hdist & Hloop)
    %forward_Ok.
  rewrite forward_interactions_spec in Hloop.
  rewrite (built_return_intermediate _ _ Hb), Hri in Hloop.
  destruct (additive_updates _ _ _ _ _ _) as [tr|e] eqn:Htr; [|done].
  cbn in Hloop. injection Hloop as -> <- <-.
  exists l, w1, r_ij, f_ij, (SchNet.Locals.x l :: tr).
  split_and!; try done.
  - simpl. by rewrite (additive_updates_length _ _ _ _ _ _ _ Htr),
      (built_interactions_length _ _ Hb).
  - rewrite last_cons. by destruct (last tr).
  - intros i block Hi. exact (additive_updates_step _ _ _ _ _ _ _ _ _ Htr Hi).
Qed.

Lemma additive_updates_shape (blocks : list SchNetInteraction.t)
    (r_ij : tensor scalar) (neighbors neighbor_mask : value)
    (f_ij x : tensor scalar) (tr : list (tensor scalar)) (B A F : nat) :
  Forall (block_width F) blocks →
  (∀ block x y,
     block ∈ blocks →
     CFConv_forward (SchNetInteraction.cfconv block) x r_ij neighbors
       neighbor_mask (Some f_ij) = Ok y →
     ∃ n, tshape y = [B; A; n]) →
  tshape x = [B; A; F] →
  additive_updates blocks r_ij neighbors neighbor_mask f_ij x = Ok tr →
  Forall (λ xi, tshape xi = [B; A; F]) tr.
Proof.
  revert x tr. induction blocks as [|b blocks IH]; intros x tr Hw Hcf Hx; simpl.
  - by intros [= <-].
  - intros (d & (y & Hy & Hd)%result_bind_Ok
              & (x' & Hx' & (tl & Htl & [= <-])%result_bind_Ok)
                %result_bind_Ok)%result_bind_Ok.
    apply Forall_cons in Hw as [[Hin Hout] Hw].
    destruct (Hcf b x y) as [n Hn]; [by left | done |].
    destruct (Dense_forward_shape_3 _ _ _ _ _ _ Hd Hn) as [_ Hds].
    rewrite Hout in Hds.
    pose proof (tadd_same_shape _ _ _ _ Hx' Hx Hds) as Hx's.
    constructor; [done|].
    apply (IH x'); [done | | done..].
    intros block x0 y0 Hblock. apply Hcf. by right.
Qed.

Lemma Even_halves (n : nat) : Nat.Even n → n / 2 + n / 2 = n.
Proof.
  intros [k ->]. rewrite (Nat.mul_comm 2 k), Nat.div_mul by done. lia.
Qed.


(** The shape of the initial feature tensor of a batch whose auxiliary
    properties have shape [(B, A, P)]. *)
Lemma forward_embed_shape (a : SchNet.Args.t) (self : SchNet.t)
    (inputs : gmap string value) (w w' : World) (l : SchNet.Locals.t)
    (props : value) (B A P : nat) :
  built_from a self →
  inputs !! "props" = Some props → value_shape props = Some [B; A; P] →
  SchNet.forward_embed self inputs w = (w', Ok l) →
  tshape (SchNet.Locals.x l)
  = [B; A; if SchNet.Args.chargeEmbedding a
           then SchNet.Args.n_atom_basis a / 2 + SchNet.Args.n_atom_basis a / 2
           else SchNet.Args.n_atom_basis a].
Proof.
  intros Hb Hprops Hshape
    (all & w1 & w2 & _ & _ & _ & _ & _ & _ & Hall & _ & _ & Hsel & Hembed)
    %forward_embed_Ok.
  apply select_props_Ok in Hsel as (all' & Hall' & Hsel).
  assert (∃ n, value_shape (SchNet.Locals.props l) = Some [B; A; n])
    as [n Hn].
  { rewrite Hprops in Hall'. injection Hall' as <-.
    destruct (SchNet.selectFet self) as [s|].
    - apply value_slice2_shape in Hsel as (d0 & d1 & d2 & rest & Hs & Hs').
      rewrite Hshape in Hs. injection Hs as <- <- <- <-. eauto.
    - rewrite Hsel. eauto. }
  by destruct (embed_shape a self _ _ _ _ _ B A n Hb Hembed Hn)
    as (t & _ & _ & Hx).
Qed.

(** C3, as the code has it.  Take an instance returned by the constructor
    whose features are initialised from the properties alone or whose
    [n_atom_basis = F] is even, and a batch with auxiliary properties of shape
    [(B, A, P)] on which the convolution of every block returns tensors with
    leading extents [(B, A)].  If [SchNet.forward] returns, the tensor it
    returns, and every recorded intermediate, has shape [(B, A, F)]. *)
Theorem forward_shape (a : SchNet.Args.t) (self : SchNet.t) (w0 w0' : World)
    (inputs : gmap string value) (props : value) (B A P : nat)
    (w w1 w2 w' : World) (l : SchNet.Locals.t) (r_ij f_ij x : tensor scalar)
    (out : option (list (tensor scalar))) :
  SchNet.__init__ a w0 = (w0', Ok self) →
  SchNet.Args.chargeEmbedding a = false ∨ Nat.Even (SchNet.Args.n_atom_basis a) →
  inputs !! "props" = Some props →
  value_shape props = Some [B; A; P] →
  SchNet.forward_embed self inputs w = (w1, Ok l) →
  SchNet.forward_distances self l w1 = (w2, Ok (r_ij, f_ij)) →
  (∀ block x y,
     block ∈ SchNet.interactions self →
     CFConv_forward (SchNetInteraction.cfconv block) x r_ij
       (SchNet.Locals.neighbors l) (SchNet.Locals.neighbor_mask l)
       (Some f_ij) = Ok y →
     ∃ n, tshape y = [B; A; n]) →
  SchNet.forward self inputs w = (w', Ok (x, out)) →
  tshape x = [B; A; SchNet.Args.n_atom_basis a] ∧
  ∀ xs, out = Some xs →
        Forall (λ xi, tshape xi = [B; A; SchNet.Args.n_atom_basis a]) xs.
Proof.
  intros Hb%init_returns Hmode Hprops Hshape Hembed Hdist Hcf Hrun.
  pose proof (forward_embed_shape _ _ _ _ _ _ _ _ _ _ Hb Hprops Hshape Hembed)
    as Hx0.
  assert (tshape (SchNet.Locals.x l) = [B; A; SchNet.Args.n_atom_basis a])
    as Hx0'.
  { rewrite Hx0. destruct Hmode as [-> | Heven]; [done|].
    rewrite (Even_halves _ Heven). by destruct (SchNet.Args.chargeEmbedding a). }
  unfold SchNet.forward in Hrun.
  rewrite M_bind_unfold, Hembed, M_bind_unfold, Hdist in Hrun.
  rewrite forward_interactions_spec in Hrun.
  destruct (additive_updates _ _ _ _ _ _) as [tr|e] eqn:Htr;
    cbn in Hrun; [|discriminate].
  injection Hrun as _ <- <-.
  pose proof (additive_updates_shape _ _ _ _ _ _ _ B A _
                (built_blocks _ _ Hb) Hcf Hx0' Htr) as Htrs.
  assert (Forall (λ xi, tshape xi = [B; A; SchNet.Args.n_atom_basis a])
            (SchNet.Locals.x l :: tr)) as Hall by by constructor.
  split.
  - destruct (last tr) as [xl|] eqn:Hlast; simpl; [|done].
    apply last_Some in Hlast as [tr' ->].
    by apply Forall_app in Htrs as [_ [? _]%Forall_cons].
  - intros xs. destruct (SchNet.return_intermediate self); [|done].
    by intros [= <-].
Qed.

Lemma embed_reads_dense (self : SchNet.t) (props atomic_numbers : value)
    (w w' : World) (x : tensor scalar) :
  SchNet.embed self props atomic_numbers w = (w', Ok x) →
  ∃ t lead, props = VFloat t ∧
            tshape t = lead ++ [in_features (SchNet.dense self)].
Proof.
  unfold SchNet.embed. destruct (SchNet.chargeEmbedding self).
  - intros Hrun. inv_run Hrun.
    apply lift_Ok in Hrun0
      as [_ (t & ->%as_float_Ok & (lead & Ht & _)%Dense_forward_shape)
            %result_bind_Ok].
    eauto.
  - intros [_ (t & ->%as_float_Ok & (lead & Ht & _)%Dense_forward_shape)
              %result_bind_Ok]%lift_Ok.
    eauto.
Qed.

(** Whatever the configuration, a run that returns has taken the slice
    [inputs['props'][:, :, 7:8]] of line 255. *)
Lemma ligand_indicator_always_sliced (self : SchNet.t)
    (inputs : gmap string value) (w w' : World)
    (out : tensor scalar * option (list (tensor scalar))) :
  SchNet.forward self inputs w = (w', Ok out) →
  ∃ all li, inputs !! "props" = Some all ∧ value_slice2 all 7 8 = Ok li.
Proof.
  intros (l & w1 & r_ij & f_ij & w2 & Hembed & _ & _)%forward_Ok.
  apply forward_embed_Ok in Hembed
    as (all & wa & wb & _ & _ & _ & _ & _ & _ & Hall & Hli & _).
  eauto.
Qed.

(** C10.  An instance constructed with [selectFet = None] has an affine
    layer of input width 8: when [SchNet.forward] returns on a batch, the
    entry ['props'] of the batch is a floating-point tensor whose last
    extent is 8, with at least three dimensions so that the slice
    [props[:, :, 7:8]] of line 255 could be taken.  For properties of shape
    [(B, A, P)] this means [P = 8], and the slice has shape [(B, A, 1)]. *)
Theorem forward_needs_eight_columns (a : SchNet.Args.t) (self : SchNet.t)
    (w0 w0' : World) (inputs : gmap string value) (w w' : World)
    (out : tensor scalar * option (list (tensor scalar))) :
  SchNet.__init__ a w0 = (w0', Ok self) →
  SchNet.Args.selectFet a = None →
  SchNet.forward self inputs w = (w', Ok out) →
  ∃ props lead li,
    inputs !! "props" = Some (VFloat props) ∧
    tshape props = lead ++ [8] ∧
    2 ≤ length lead ∧
    slice2 props 7 8 = Ok li ∧
    ∀ B A P, tshape props = [B; A; P] → P = 8 ∧ tshape li = [B; A; 1].
Proof.
  intros Hb%init_returns Hsel
    (l & w1 & r_ij & f_ij & w2 & Hembed & _ & _)%forward_Ok.
  apply forward_embed_Ok in Hembed
    as (all & wa & wb & _ & _ & _ & _ & _ & _ & Hall & Hli & _ & Hsp & Hembed).
  apply select_props_Ok in Hsp as (all' & Hall' & Hsp).
  rewrite (built_selectFet _ _ Hb), Hsel in Hsp.
  rewrite Hall in Hall'. injection Hall' as <-.
  apply embed_reads_dense in Hembed as (t & lead & Ht & Hlead).
  rewrite (built_dense_in _ _ Hb), Hsel in Hlead.
  rewrite Hsp in Ht. rewrite Ht in Hli, Hall. simpl in Hli.
  destruct (slice2 t 7 8) as [li|] eqn:Hslice; cbn in Hli; [|discriminate].
  exists t, lead, li. split_and!; try done.
  - apply slice2_shape in Hslice as (d0 & d1 & d2 & rest & Hs & _).
    rewrite Hlead in Hs. apply (f_equal length) in Hs.
    rewrite length_app in Hs. simpl in Hs. lia.
  - intros B A P HP. rewrite HP in Hlead.
    change [B; A; P] with ([B; A] ++ [P]) in Hlead.
    apply app_inj_tail in Hlead as [_ ->]. split; [done|].
    apply slice2_shape in Hslice as (d0 & d1 & d2 & rest & Hs & ->).
    rewrite HP in Hs. by injection Hs as <- <- <- <-.
Qed.

(** The distances of a run are those of [self.newpos]: line 249 binds
    [positions] to the tensor drawn by the constructor. *)
Lemma forward_distances_Ok (self : SchNet.t) (l : SchNet.Locals.t)
    (w w' : World) (r_ij f_ij : tensor scalar) :
  SchNet.forward_distances self l w = (w', Ok (r_ij, f_ij)) →
  AtomDistances_forward (SchNet.Locals.positions l)
    (SchNet.Locals.neighbors l) (SchNet.Locals.cell l)
    (SchNet.Locals.cell_offset l) (SchNet.Locals.neighbor_mask l) = Ok r_ij ∧
  DistanceExpansion_forward (SchNet.distance_expansion self) r_ij = Ok f_ij.
Proof.
  unfold SchNet.forward_distances. intros Hrun. inv_run Hrun.
  apply lift_Ok in Hrun4 as [_ Hr]. apply lift_Ok in Hrun5 as [_ Hf].
  apply mret_Ok in Hrun as [_ [= -> ->]]. done.
Qed.

Lemma forward_distances_from_newpos (self : SchNet.t)
    (inputs : gmap string value) (w w1 w2 : World) (l : SchNet.Locals.t)
    (r_ij f_ij : tensor scalar) :
  SchNet.forward_embed self inputs w = (w1, Ok l) →
  SchNet.forward_distances self l w1 = (w2, Ok (r_ij, f_ij)) →
  AtomDistances_forward (SchNet.newpos self) (SchNet.Locals.neighbors l)
    (SchNet.Locals.cell l) (SchNet.Locals.cell_offset l)
    (SchNet.Locals.neighbor_mask l) = Ok r_ij.
Proof.
  intros (all & wa & wb & _ & _ & _ & _ & _ & _ & _ & _ & Hpos & _)
    %forward_embed_Ok [Hr _]%forward_distances_Ok.
  by rewrite <- Hpos.
Qed.


End Forward_properties.

(* ===================================================================== *)
(** ** The model at concrete batches *)
(* ===================================================================== *)

Section Evaluation.
Import Concrete.

(** A run that succeeded, in terms of its two components. *)
Lemma run_Ok {X} (d : X) (c : World * result X) :
  succeeded c.2 = true → c = (c.1, Ok (get d c.2)).
Proof. by destruct c as [w [x|e]]. Qed.

Lemma run_Ok_pair {X Y} (d : X * Y) (c : World * result (X * Y)) :
  succeeded c.2 = true → c = (c.1, Ok ((get d c.2).1, (get d c.2).2)).
Proof. by destruct c as [w [[x y]|e]]. Qed.

Lemma batch_props (props positions : tensor Z) :
  batch props positions !! "props" = Some (VFloat props).
Proof.
  unfold batch. rewrite !lookup_insert_ne by done. apply lookup_insert_eq.
Qed.

Lemma batch_positions (props p q : tensor Z) (key : string) :
  key ≠ "_positions" → batch props p !! key = batch props q !! key.
Proof.
  intros Hkey. unfold batch.
  destruct (decide (key = "_atomic_numbers")) as [->|Hz].
  - by rewrite !lookup_insert_eq.
  - rewrite !(lookup_insert_ne _ "_atomic_numbers") by done.
    by rewrite !(lookup_insert_ne _ "_positions").
Qed.

Lemma convolution_shape (c : nat * nat) (x r_ij y : tensor Z)
    (neighbors : value) (B A K : nat) :
  convolution c x r_ij neighbors = Ok y →
  value_shape neighbors = Some [B; A; K] →
  ∃ n, tshape y = [B; A; n].
Proof.
  unfold convolution. intros Hy Hs. rewrite Hs in Hy.
  destruct (split_last (tshape x)) as [[lead k]|]; [|done].
  case_decide; [|done]. injection Hy as <-. eauto.
Qed.

(** Discharge an equation between a run and its components by evaluation. *)
Ltac unfold_runs :=
  unfold world_after, world_measured, world_embedded, geometry_of, locals_of,
    output_of, construct, constructed.

Ltac run_ok := unfold_runs; apply run_Ok; vm_compute; reflexivity.

Ltac run_ok_pair := unfold_runs; apply run_Ok_pair; vm_compute; reflexivity.

(** C1 at a batch.  The instance built from the default arguments computes
    the distances [0, 2] for the batch with the atoms at [(0, 0, 0)] and
    [(7, 0, 0)], and the same for the batch with the atoms moved to
    [(1, 0, 0)] and [(9, 0, 0)]; on the positions of the two batches the
    distance layer gives [7, 0] and [9, 1]. *)
Lemma positions_entry_not_used :
  let self := construct defaults in
  let w := constructed defaults in
  let neighbors := VLong (Tensor [1; 2; 1] [1; 0]%Z) in
  let neighbor_mask := VFloat (Tensor [1; 2; 1] [1; 1]%Z) in
  succeeded (SchNet.__init__ defaults world0).2 = true ∧
  succeeded (SchNet.forward self (batch props8 positions0) w).2 = true ∧
  (geometry_of self (batch props8 positions0) w).1
  = Tensor [1; 2; 1] [0; 2]%Z ∧
  (geometry_of self (batch props8 positions1) w).1
  = Tensor [1; 2; 1] [0; 2]%Z ∧
  AtomDistances_forward positions0 neighbors VNone VNone neighbor_mask
  = Ok (Tensor [1; 2; 1] [7; 0]%Z) ∧
  AtomDistances_forward positions1 neighbors VNone VNone neighbor_mask
  = Ok (Tensor [1; 2; 1] [9; 1]%Z).
Proof. cbv zeta. split_and!; vm_compute; reflexivity. Qed.

(** C2 fails at a batch.  The instance is constructed with
    [charged_systems] and holds the charge vector [1, 2]; the batch has the
    charge entry 4 and two valid atoms.  The first recorded tensor, which
    enters the first block, is the output [2, 3; 2, 8] of the affine layer,
    not the tensor [4, 7; 4, 12] that lines 296-299 make of it. *)
Lemma charge_not_added :
  let self := construct args_charged in
  let w := constructed args_charged in
  SchNet.__init__ args_charged world0 = (w, Ok self) ∧
  SchNet.charged_systems self = true ∧
  SchNet.charge self = Some (Tensor [1; 2] [1; 2]%Z) ∧
  batch_charged !! Properties_charge = Some (VFloat (Tensor [1; 1] [4]%Z)) ∧
  (SchNet.forward self batch_charged w).2
  = Ok (Tensor [1; 2; 2] [22; 19; 22; 24]%Z,
        Some [Tensor [1; 2; 2] [2; 3; 2; 8]%Z;
              Tensor [1; 2; 2] [22; 19; 22; 24]%Z]) ∧
  SchNet.charge_update self batch_charged (VFloat (Tensor [1; 2] [1; 1]%Z))
    (Tensor [1; 2; 2] [2; 3; 2; 8]%Z)
  = Ok (Tensor [1; 2; 2] [4; 7; 4; 12]%Z) ∧
  Tensor [1; 2; 2] [2; 3; 2; 8]%Z ≠ Tensor [1; 2; 2] [4; 7; 4; 12]%Z.
Proof.
  cbv zeta. split_and!.
  - run_ok.
  - vm_compute. reflexivity.
  - vm_compute. reflexivity.
  - apply lookup_insert_eq.
  - vm_compute. reflexivity.
  - vm_compute. reflexivity.
  - discriminate.
Qed.

(** C3 fails at two batches.  In the combined mode with [n_atom_basis = 5]
    and no interaction block, [forward] returns a tensor of shape
    [(1, 2, 4)] on a batch of dimensions [(1, 2, 1, 8)]; with the default
    arguments it raises on the batch with three auxiliary properties. *)
Lemma shape_not_always_BAF :
  SchNet.__init__ (args 5 0 true false) world0
  = (constructed (args 5 0 true false), Ok (construct (args 5 0 true false))) ∧
  (SchNet.forward (construct (args 5 0 true false)) (batch props8 positions0)
     (constructed (args 5 0 true false))).2
  = Ok (Tensor [1; 2; 4] [2; 3; 2; 3; 2; 8; 1; 2]%Z, None) ∧
  [1; 2; 4] ≠ [1; 2; SchNet.Args.n_atom_basis (args 5 0 true false)] ∧
  SchNet.__init__ defaults world0
  = (constructed defaults, Ok (construct defaults)) ∧
  (SchNet.forward (construct defaults) (batch props3 positions0)
     (constructed defaults)).2
  = Raise RuntimeError.
Proof.
  split_and!.
  - run_ok.
  - vm_compute. reflexivity.
  - discriminate.
  - run_ok.
  - vm_compute. reflexivity.
Qed.


(** The instance constructed with [charged_systems] on the batch with the
    charge entry 4. *)
Lemma forward_never_adds_charge_witness :
  SchNet.forward
    (set_charge (construct args_charged) true (Some (Tensor [1; 2] [1; 2]%Z)))
    batch_charged (constructed args_charged)
  = SchNet.forward (set_charge (construct args_charged) false None)
      (delete "_charge" (batch props8 positions0)) (constructed args_charged).
Proof.
  apply (forward_never_adds_charge (construct args_charged) true
           (Some (Tensor [1; 2] [1; 2]%Z)) (batch props8 positions0)).
  unfold keys_read. rewrite !not_elem_of_cons.
  split_and!; [done..|]. apply not_elem_of_nil.
Defined.

(** The shape theorem at the default instance and the batch of two atoms. *)
Lemma forward_shape_witness :
  let self := construct defaults in
  let w := constructed defaults in
  let out := output_of self (batch props8 positions0) w in
  tshape out.1 = [1; 2; 4] ∧
  ∀ xs, out.2 = Some xs → Forall (λ xi, tshape xi = [1; 2; 4]) xs.
Proof.
  cbv zeta.
  apply (forward_shape defaults (construct defaults) world0
           (constructed defaults) (batch props8 positions0)
           (@VFloat numeric props8) 1 2 8 (constructed defaults)
           (world_embedded (construct defaults) (batch props8 positions0)
              (constructed defaults))
           (world_measured (construct defaults) (batch props8 positions0)
              (constructed defaults))
           (world_after (construct defaults) (batch props8 positions0)
              (constructed defaults))
           (locals_of (construct defaults) (batch props8 positions0)
              (constructed defaults))
           (geometry_of (construct defaults) (batch props8 positions0)
              (constructed defaults)).1
           (geometry_of (construct defaults) (batch props8 positions0)
              (constructed defaults)).2).
  - run_ok.
  - right. exists 2. reflexivity.
  - apply batch_props.
  - reflexivity.
  - run_ok.
  - run_ok_pair.
  - intros block x y _ Hy. apply (convolution_shape _ _ _ _ _ 1 2 1 Hy).
    vm_compute. reflexivity.
  - run_ok_pair.
Defined.


(** Three interactions with intermediates: four tensors are returned. *)
Lemma forward_returns_intermediates_witness :
  let a := args 4 3 true true in
  let out := output_of (construct a) (batch props8 positions0) (constructed a) in
  ∃ xs, out.2 = Some xs ∧ length xs = 4 ∧ last xs = Some out.1.
Proof.
  cbv zeta.
  destruct (forward_returns_intermediates (args 4 3 true true)
              (construct (args 4 3 true true)) world0
              (constructed (args 4 3 true true)) (batch props8 positions0)
              (constructed (args 4 3 true true))
              (world_after (construct (args 4 3 true true))
                 (batch props8 positions0) (constructed (args 4 3 true true)))
              (output_of (construct (args 4 3 true true))
                 (batch props8 positions0)
                 (constructed (args 4 3 true true))).1
              (output_of (construct (args 4 3 true true))
                 (batch props8 positions0)
                 (constructed (args 4 3 true true))).2)
    as (l & w1 & r_ij & f_ij & xs & _ & _ & Hout & Hlen & _ & Hlast & _).
  - run_ok.
  - reflexivity.
  - run_ok_pair.
  - exists xs. split_and!; assumption.
Defined.


(** The additive updates at the default instance. *)
Lemma forward_updates_additively_witness :
  let self := construct defaults in
  let inputs := batch props8 positions0 in
  let w := constructed defaults in
  let l := locals_of self inputs w in
  let g := geometry_of self inputs w in
  ∃ res,
    SchNet.forward self inputs w = (world_measured self inputs w, res) ∧
    fst <$> res
    = (λ tr, default (SchNet.Locals.x l) (last tr))
      <$> additive_updates (SchNet.interactions self) g.1
            (SchNet.Locals.neighbors l) (SchNet.Locals.neighbor_mask l)
            g.2 (SchNet.Locals.x l).
Proof.
  cbv zeta.
  apply (forward_updates_additively (construct defaults)
           (batch props8 positions0) (constructed defaults)
           (world_embedded (construct defaults) (batch props8 positions0)
              (constructed defaults))).
  - run_ok.
  - run_ok_pair.
Defined.

(** The default instance on the batch and on the batch with the atoms
    moved. *)
Lemma forward_independent_of_positions_witness :
  SchNet.forward (construct defaults) (batch props8 positions0)
    (constructed defaults)
  = SchNet.forward (construct defaults) (batch props8 positions1)
      (constructed defaults).
Proof.
  apply forward_independent_of_positions.
  - unfold keys_read. rewrite !not_elem_of_cons.
    split_and!; [done..|]. apply not_elem_of_nil.
  - intros key Hkey. by apply batch_positions.
Defined.

(** The default instance returns on the batch with eight properties. *)
Lemma forward_needs_eight_columns_witness :
  ∃ props lead li,
    batch props8 positions0 !! "props" = Some (VFloat props) ∧
    tshape props = lead ++ [8] ∧
    2 ≤ length lead ∧
    slice2 props 7 8 = Ok li ∧
    ∀ B A P, tshape props = [B; A; P] → P = 8 ∧ tshape li = [B; A; 1].
Proof.
  apply (forward_needs_eight_columns defaults (construct defaults) world0
           (constructed defaults) (batch props8 positions0)
           (constructed defaults)
           (world_after (construct defaults) (batch props8 positions0)
              (constructed defaults))
           (output_of (construct defaults) (batch props8 positions0)
              (constructed defaults))).
  - run_ok.
  - reflexivity.
  - run_ok.
Defined.

End Evaluation.

(* ===================================================================== *)
(** ** Effects of the computations *)
(* ===================================================================== *)

Section Effects.
Context `{Package}.

Lemma silent_ret {X} (x : X) : silent (mret x).
Proof. by intros w w' r [= <- <-]. Qed.

Lemma silent_lift {X} (r : result X) : silent (lift r).
Proof. by intros w w' r' [= <- <-]. Qed.

Lemma silent_bind {X Y} (c : M X) (f : X → M Y) :
  silent c → (∀ x, silent (f x)) → silent (c ≫= f).
Proof.
  intros Hc Hf w w' r. rewrite M_bind_unfold.
  destruct (c w) as [w1 [x|e]] eqn:Hrun.
  - intros Hrun'. destruct (Hc _ _ _ Hrun) as [<- <-].
    exact (Hf x _ _ _ Hrun').
  - intros [= <- <-]. exact (Hc _ _ _ Hrun).
Qed.

Lemma silent_draw {X} (f : Seed → X * Seed) : silent (draw f).
Proof.
  intros w w' r. unfold draw. destruct (f (rng w)) as [x s].
  by intros [= <- <-].
Qed.

Lemma silent_fill (d : sampler) (shape : list nat) : silent (fill d shape).
Proof. apply silent_draw. Qed.

Lemma silent_cuda (t : tensor scalar) : silent (cuda t).
Proof. by intros w w' r [= <- <-]. Qed.

Lemma silent_comprehension {A B} (f : A → M B) (l : list A) :
  (∀ a, silent (f a)) → silent (comprehension f l).
Proof.
  intros Hf. induction l as [|a l IH]; simpl; [apply silent_ret|].
  apply silent_bind; [apply Hf|]. intros b.
  apply silent_bind; [apply IH|]. intros bs. apply silent_ret.
Qed.

Lemma silent_Dense_init (n_in n_out : nat) (with_bias : bool)
    (act : option (scalar → scalar)) :
  silent (Dense_init n_in n_out with_bias act).
Proof.
  apply silent_bind; [apply silent_fill|]. intros t. apply silent_ret.
Qed.

Lemma silent_Embedding_init (num dim pad : nat) :
  silent (Embedding_init num dim pad).
Proof.
  unfold Embedding_init. case_decide; [|apply silent_lift].
  apply silent_bind; [apply silent_fill|]. intros t. apply silent_ret.
Qed.

Lemma silent_interaction_init (n_atom_basis n_spatial_basis n_filters : nat)
    (cutoff : scalar) (cutoff_network : scalar → CutoffNetwork)
    (normalize_filter : bool) :
  silent (SchNetInteraction.__init__ n_atom_basis n_spatial_basis n_filters
            cutoff cutoff_network normalize_filter).
Proof.
  unfold SchNetInteraction.__init__.
  repeat first [ apply silent_Dense_init | apply silent_draw
               | apply silent_ret | apply silent_bind; [|intros ?] ].
Qed.

Lemma silent_init_embedding (a : SchNet.Args.t) :
  silent (SchNet.init_embedding a).
Proof.
  unfold SchNet.init_embedding.
  destruct (SchNet.Args.chargeEmbedding a), (SchNet.Args.selectFet a) as [s|];
    cbn [andb negb]; repeat case_bool_decide; try done.
  all: repeat first [ apply silent_Dense_init | apply silent_Embedding_init
                    | apply silent_ret | apply silent_bind; [|intros ?] ].
Qed.

Lemma silent_init_interactions (a : SchNet.Args.t) :
  silent (SchNet.init_interactions a).
Proof.
  unfold SchNet.init_interactions.
  destruct (SchNet.Args.n_filters a) as [n|l].
  - destruct (SchNet.Args.coupled_interactions a).
    + apply silent_bind; [apply silent_interaction_init|]. intros b.
      apply silent_ret.
    + apply silent_comprehension. intros _. apply silent_interaction_init.
  - apply silent_comprehension. intros i.
    destruct (l !! i); [apply silent_interaction_init | apply silent_lift].
Qed.

(** The constructor prints nothing and leaves the device as it is. *)
Lemma silent_init (a : SchNet.Args.t) : silent (SchNet.__init__ a).
Proof.
  unfold SchNet.__init__.
  apply silent_bind; [apply silent_init_embedding|]. intros [e d].
  apply silent_bind; [apply silent_init_interactions|]. intros bs.
  apply silent_bind.
  { destruct (SchNet.Args.charged_systems a); [|apply silent_ret].
    case_decide; [apply silent_lift|].
    apply silent_bind; [apply silent_fill|]. intros c. apply silent_ret. }
  intros charge.
  apply silent_bind; [apply silent_fill|]. intros r.
  apply silent_bind; [apply silent_cuda|]. intros newpos. apply silent_ret.
Qed.

Lemma only_prints_ret {X} (x : X) : only_prints (mret x).
Proof. by intros w w' r [= <- <-]. Qed.

Lemma only_prints_lift {X} (r : result X) : only_prints (lift r).
Proof. by intros w w' r' [= <- <-]. Qed.

Lemma only_prints_print (args : list parg) : only_prints (print args).
Proof.
  intros w w' r [= <- <-]. simpl. split_and!; [done..|].
  by apply prefix_app_r.
Qed.

Lemma only_prints_getitem (inputs : gmap string value) (key : string) :
  only_prints (getitem inputs key).
Proof.
  unfold getitem. destruct (inputs !! key);
    [apply only_prints_ret | apply only_prints_lift].
Qed.

Lemma only_prints_bind {X Y} (c : M X) (f : X → M Y) :
  only_prints c → (∀ x, only_prints (f x)) → only_prints (c ≫= f).
Proof.
  intros Hc Hf w w' r. rewrite M_bind_unfold.
  destruct (c w) as [w1 [x|e]] eqn:Hrun.
  - intros Hrun'. destruct (Hc _ _ _ Hrun) as (<- & <- & Hpre).
    destruct (Hf x _ _ _ Hrun') as (? & ? & Hpre').
    split_and!; [done..|]. by etrans.
  - intros [= <- <-]. exact (Hc _ _ _ Hrun).
Qed.

Lemma only_prints_for_each {A S} (l : list A) (body : A → S → M S) (s : S) :
  (∀ a s, only_prints (body a s)) → only_prints (for_each l body s).
Proof.
  intros Hb. revert s. induction l as [|a l IH]; intros s; simpl.
  - apply only_prints_ret.
  - apply only_prints_bind; [apply Hb | apply IH].
Qed.

Lemma only_prints_select_props (self : SchNet.t)
    (inputs : gmap string value) :
  only_prints (SchNet.select_props self inputs).
Proof.
  unfold SchNet.select_props.
  destruct (SchNet.selectFet self) as [s|]; [|apply only_prints_getitem].
  apply only_prints_bind; [apply only_prints_getitem|]. intros all.
  apply only_prints_bind; [apply only_prints_lift|]. intros props.
  apply only_prints_bind; [apply only_prints_lift|]. intros n.
  apply only_prints_bind.
  { apply only_prints_for_each. intros i [].
    apply only_prints_bind; [apply only_prints_lift|]. intros m.
    apply only_prints_bind.
    { apply only_prints_for_each. intros k yes.
      apply only_prints_bind; [apply only_prints_lift|]. intros [|].
      - apply only_prints_bind; [apply only_prints_print|]. intros _.
        apply only_prints_ret.
      - apply only_prints_bind; [apply only_prints_print|]. intros _.
        apply only_prints_ret. }
    intros yes. destruct (negb yes);
      [apply only_prints_print | apply only_prints_ret]. }
  intros _.
  apply only_prints_bind; [apply only_prints_print|]. intros _.
  apply only_prints_ret.
Qed.

Lemma only_prints_embed (self : SchNet.t) (props atomic_numbers : value) :
  only_prints (SchNet.embed self props atomic_numbers).
Proof.
  unfold SchNet.embed.
  destruct (SchNet.chargeEmbedding self); [|apply only_prints_lift].
  apply only_prints_bind; [apply only_prints_lift|]. intros p.
  apply only_prints_bind.
  { destruct (SchNet.embedding self);
      [apply only_prints_ret | apply only_prints_lift]. }
  intros e.
  apply only_prints_bind; [apply only_prints_lift|]. intros x1.
  apply only_prints_bind; [apply only_prints_lift|]. intros x2.
  apply only_prints_bind; [apply only_prints_print|]. intros _.
  apply only_prints_ret.
Qed.

(** Lines 247-299 draw no random number. *)
Lemma only_prints_forward_embed (self : SchNet.t)
    (inputs : gmap string value) :
  only_prints (SchNet.forward_embed self inputs).
Proof.
  unfold SchNet.forward_embed. cbn [andb].
  repeat (apply only_prints_bind; [apply only_prints_getitem|]; intros ?).
  apply only_prints_bind; [apply only_prints_lift|]. intros li.
  apply only_prints_bind; [apply only_prints_print|]. intros _.
  apply only_prints_bind; [apply only_prints_select_props|]. intros props.
  apply only_prints_bind; [apply only_prints_embed|]. intros feat.
  apply only_prints_bind; [apply only_prints_ret|]. intros feat'.
  apply only_prints_ret.
Qed.

(** A returning run of lines 301-312 needs a CUDA device, draws one tensor
    of the shape of the positions and prints the positions. *)
Lemma forward_distances_world (self : SchNet.t) (l : SchNet.Locals.t)
    (w w' : World) (g : tensor scalar * tensor scalar) :
  SchNet.forward_distances self l w = (w', Ok g) →
  cuda_available w = true ∧
  w' = mkWorld
         (sample UniformUnit (numel (tshape (SchNet.Locals.positions l)))
            (rng w)).2
         (stdout w ++ [[PValue (VFloat (SchNet.Locals.positions l))]])
         true.
Proof.
  unfold SchNet.forward_distances. intros Hrun. inv_run Hrun.
  injection Hrun0 as <-.
  unfold torch_rand, fill, draw in Hrun1. simpl in Hrun1.
  destruct (sample _ _ _) as [xs s] eqn:Hs. injection Hrun1 as <- <-.
  unfold cuda in Hrun2. simpl in Hrun2.
  destruct (cuda_available w) eqn:Hcuda; [|by injection Hrun2].
  injection Hrun2 as <- <-.
  assert (w3 = mkWorld s
                 (stdout w ++ [[PValue (VFloat (SchNet.Locals.positions l))]])
                 true)
    as -> by (by destruct (SchNet.use_noise self); injection Hrun3 as <-).
  apply lift_Ok in Hrun4 as [-> _]. apply lift_Ok in Hrun5 as [-> _].
  apply mret_Ok in Hrun as [-> _]. done.
Qed.

End Effects.

(* ===================================================================== *)
(** ** More on the constructors *)
(* ===================================================================== *)

Section More_constructor.
Context `{Package}.

Lemma returns_and {X} (c : M X) (P Q : X → Prop) :
  returns c P → returns c Q → returns c (λ x, P x ∧ Q x).
Proof. intros HP HQ w w' x Hrun. split; eauto. Qed.

Lemma returns_mono {X} (c : M X) (P Q : X → Prop) :
  returns c P → (∀ x, P x → Q x) → returns c Q.
Proof. intros HP HPQ w w' x Hrun. eauto. Qed.

(** The layer as [Dense_init] leaves it: a weight of shape
    [(n_out, n_in)], a zero bias when asked for, and the activation. *)
Lemma Dense_init_layer (n_in n_out : nat) (with_bias : bool)
    (act : option (scalar → scalar)) :
  draws_only (Dense_init n_in n_out with_bias act)
    (λ d, in_features d = n_in ∧ out_features d = n_out ∧
          tshape (weight d) = [n_out; n_in] ∧ activation d = act ∧
          bias d = if with_bias
                   then Some (Tensor [n_out] (replicate n_out szero))
                   else None).
Proof.
  unfold Dense_init.
  apply (draws_only_bind _ _ _ _ (draws_only_fill _ _)).
  intros t Ht. by apply draws_only_ret.
Qed.

(** A shape with a last extent equal to the input width is accepted. *)
Lemma Dense_forward_Ok (d : Dense) (x : tensor scalar) (lead : list nat) :
  tshape x = lead ++ [in_features d] →
  ∃ y, Dense_forward d x = Ok y ∧ tshape y = lead ++ [out_features d].
Proof.
  intros Hx. unfold Dense_forward.
  rewrite (proj2 (split_last_Some _ _ _) Hx), decide_True by done.
  eauto.
Qed.

(** Another last extent raises [RuntimeError]. *)
Lemma Dense_forward_mismatch (d : Dense) (x : tensor scalar)
    (lead : list nat) (k : nat) :
  tshape x = lead ++ [k] → k ≠ in_features d →
  Dense_forward d x = Raise RuntimeError.
Proof.
  intros Hx Hk. unfold Dense_forward.
  by rewrite (proj2 (split_last_Some _ _ _) Hx), decide_False.
Qed.

(** What [SchNetInteraction.__init__] builds. *)
Lemma interaction_init_layers (n_atom_basis n_spatial_basis n_filters : nat)
    (cutoff : scalar) (cutoff_network : scalar → CutoffNetwork)
    (normalize_filter : bool) :
  draws_only (SchNetInteraction.__init__ n_atom_basis n_spatial_basis
                n_filters cutoff cutoff_network normalize_filter)
    (λ b, block_width n_atom_basis b ∧
          filter_widths n_spatial_basis n_filters b ∧
          SchNetInteraction.cutoff_network b = cutoff_network cutoff ∧
          activation (SchNetInteraction.filter_network b).1
          = Some shifted_softplus ∧
          activation (SchNetInteraction.filter_network b).2 = None ∧
          activation (SchNetInteraction.dense b) = None).
Proof.
  unfold SchNetInteraction.__init__.
  apply (draws_only_bind _ _ _ _ (Dense_init_layer _ _ _ _)).
  intros f1 (? & ? & _ & ? & _).
  apply (draws_only_bind _ _ _ _ (Dense_init_layer _ _ _ _)).
  intros f2 (? & ? & _ & ? & _).
  apply (draws_only_bind _ _ (λ _, True)); [by apply draws_only_draw|].
  intros cf _.
  apply (draws_only_bind _ _ _ _ (Dense_init_layer _ _ _ _)).
  intros d (? & ? & _ & ? & _).
  apply draws_only_ret. by repeat split.
Qed.

(** X1.  A block built by [SchNetInteraction.__init__] for [n_atom_basis]
    features returns, when its [forward] returns, a tensor whose last
    extent is [n_atom_basis]; the convolution has then returned a tensor
    with the same extents. *)
Theorem interaction_forward_width
    (n_atom_basis n_spatial_basis n_filters : nat) (cutoff : scalar)
    (cutoff_network : scalar → CutoffNetwork) (normalize_filter : bool)
    (w w' : World) (block : SchNetInteraction.t) (x r_ij : tensor scalar)
    (neighbors neighbor_mask : value) (f_ij : option (tensor scalar))
    (v : tensor scalar) :
  SchNetInteraction.__init__ n_atom_basis n_spatial_basis n_filters cutoff
    cutoff_network normalize_filter w = (w', Ok block) →
  SchNetInteraction.forward block x r_ij neighbors neighbor_mask f_ij = Ok v →
  ∃ y lead,
    CFConv_forward (SchNetInteraction.cfconv block) x r_ij neighbors
      neighbor_mask f_ij = Ok y ∧
    tshape y = lead ++ [n_atom_basis] ∧
    tshape v = lead ++ [n_atom_basis].
Proof.
  intros [Hin Hout]%(draws_only_returns _ _ (interaction_init_draws _ _ _ _ _ _)).
  unfold SchNetInteraction.forward.
  intros (y & Hy & (v' & Hv & [= <-])%result_bind_Ok)%result_bind_Ok.
  apply Dense_forward_shape in Hv as (lead & Hys & Hvs).
  exists y, lead. by rewrite Hys, Hvs, Hin, Hout.
Qed.

(** X2.  The filter-generating network of a block built for
    [n_spatial_basis] basis functions and [n_filters] filters accepts the
    tensors whose last extent is [n_spatial_basis], which it takes to the
    last extent [n_filters], and raises [RuntimeError] on every other last
    extent. *)
Theorem filter_network_width
    (n_atom_basis n_spatial_basis n_filters : nat) (cutoff : scalar)
    (cutoff_network : scalar → CutoffNetwork) (normalize_filter : bool)
    (w w' : World) (block : SchNetInteraction.t) (f_ij : tensor scalar)
    (lead : list nat) (G : nat) :
  SchNetInteraction.__init__ n_atom_basis n_spatial_basis n_filters cutoff
    cutoff_network normalize_filter w = (w', Ok block) →
  tshape f_ij = lead ++ [G] →
  let run := Dense_forward (SchNetInteraction.filter_network block).1 f_ij
             ≫= Dense_forward (SchNetInteraction.filter_network block).2 in
  (G = n_spatial_basis → ∃ W, run = Ok W ∧ tshape W = lead ++ [n_filters]) ∧
  (G ≠ n_spatial_basis → run = Raise RuntimeError).
Proof.
  intros (_ & (Hin1 & Hout1 & Hin2 & Hout2) & _)
    %(draws_only_returns _ _ (interaction_init_layers _ _ _ _ _ _)) Hshape.
  cbv zeta. split.
  - intros ->. rewrite <- Hin1 in Hshape.
    destruct (Dense_forward_Ok _ _ _ Hshape) as (y & -> & Hy). simpl.
    rewrite Hout1, <- Hin2 in Hy.
    destruct (Dense_forward_Ok _ _ _ Hy) as (z & -> & Hz).
    exists z. by rewrite Hz, Hout2.
  - intros HG. rewrite (Dense_forward_mismatch _ _ _ _ Hshape); [done|].
    by rewrite Hin1.
Qed.

Lemma Embedding_init_guard (num dim pad : nat) :
  returns (Embedding_init num dim pad) (λ _, pad < num).
Proof.
  unfold Embedding_init. case_decide; [|apply returns_raise].
  by intros w w' e _.
Qed.

Lemma init_embedding_guard (a : SchNet.Args.t) :
  returns (SchNet.init_embedding a)
    (λ _, SchNet.Args.chargeEmbedding a = true → 0 < SchNet.Args.max_z a).
Proof.
  unfold SchNet.init_embedding.
  destruct (SchNet.Args.chargeEmbedding a), (SchNet.Args.selectFet a) as [s|];
    cbn [andb negb]; repeat case_bool_decide; try done.
  all: try (apply (returns_bind _ _ _ _ (Embedding_init_guard _ _ _));
            intros e He w w' x _ _; exact He).
  all: by intros w w' x _.
Qed.

(** The list a comprehension returns is related element by element to the
    list it runs over. *)
Lemma comprehension_Forall2 {A B} (f : A → M B) (l : list A)
    (P : A → B → Prop) :
  (∀ a, returns (f a) (P a)) →
  returns (comprehension f l) (λ bs, Forall2 P l bs).
Proof.
  intros Hf. induction l as [|a l IH]; simpl.
  - by apply returns_ret.
  - apply (returns_bind _ _ _ _ (Hf a)). intros b Hb.
    apply (returns_bind _ _ _ _ IH). intros bs Hbs.
    apply returns_ret. by constructor.
Qed.

(** With a list of filter widths, the block [i] is built for the width
    [n_filters[i]]. *)
Lemma init_interactions_widths (a : SchNet.Args.t) (l : list nat) :
  SchNet.Args.n_filters a = FiltersList l →
  returns (SchNet.init_interactions a)
    (λ bs, Forall2
             (λ i b, ∃ n, l !! i = Some n ∧
                          filter_widths (SchNet.Args.n_gaussians a) n b)
             (seq 0 (SchNet.Args.n_interactions a)) bs).
Proof.
  intros Hl. unfold SchNet.init_interactions. rewrite Hl.
  apply comprehension_Forall2. intros i.
  destruct (l !! i) as [n|]; [|apply returns_raise].
  eapply returns_mono;
    [apply draws_only_returns, interaction_init_layers|].
  intros b (_ & Hw & _). eauto.
Qed.

Lemma init_interactions_guard (a : SchNet.Args.t) :
  returns (SchNet.init_interactions a) (λ _, filters_ok a).
Proof.
  unfold filters_ok.
  destruct (SchNet.Args.n_filters a) as [n|l] eqn:Hl; [by intros w w' x _|].
  intros w w' bs Hrun.
  pose proof (init_interactions_widths a l Hl _ _ _ Hrun) as Hall.
  destruct (decide (SchNet.Args.n_interactions a ≤ length l)) as [|Hlt];
    [done|].
  assert (seq 0 (SchNet.Args.n_interactions a) !! length l = Some (length l))
    as Hi by (apply lookup_seq; lia).
  destruct (Forall2_lookup_l _ _ _ _ _ Hall Hi) as (b & _ & n & Hn & _).
  apply lookup_lt_Some in Hn. lia.
Qed.

(** What a returning constructor has checked. *)
Lemma init_Ok_args (a : SchNet.Args.t) (w w' : World) (self : SchNet.t) :
  SchNet.__init__ a w = (w', Ok self) →
  args_ok a ∧ cuda_available w = true.
Proof.
  intros Hrun. pose proof (silent_init a _ _ _ Hrun) as [_ Hcuda].
  unfold SchNet.__init__ in Hrun. inv_run Hrun. destruct x as [e d].
  inv_run Hrun.
  pose proof (init_embedding_guard a _ _ _ Hrun0) as Hz.
  pose proof (init_interactions_guard a _ _ _ Hrun1) as Hf.
  assert (SchNet.Args.charged_systems a = true →
          SchNet.Args.n_atom_basis a ≠ 0) as Hc.
  { intros Hcs. rewrite Hcs in Hrun2. by case_decide. }
  assert (cuda_available w3 = true) as Hcuda3.
  { unfold cuda in Hrun4. by destruct (cuda_available w3). }
  pose proof (cuda_returns _ _ _ _ Hrun4) as ->.
  assert (w4 = w3) as ->.
  { unfold cuda in Hrun4. by destruct (cuda_available w3); injection Hrun4. }
  apply mret_Ok in Hrun as [-> _].
  split; [done|]. congruence.
Qed.

(** X3.  [SchNet.__init__] returns an instance only if the lookup table
    of the combined mode has a row ([max_z > 0]), a list of filter widths
    has an entry for every interaction, the charge vector is not of width 0
    and a CUDA device is present; a construction that returns has printed
    nothing. *)
Theorem init_returns_only_if (a : SchNet.Args.t) (w w' : World)
    (self : SchNet.t) :
  SchNet.__init__ a w = (w', Ok self) →
  args_ok a ∧ cuda_available w = true ∧ stdout w' = stdout w.
Proof.
  intros Hrun. destruct (init_Ok_args _ _ _ _ Hrun) as [Hargs Hcuda].
  by destruct (silent_init a _ _ _ Hrun).
Qed.

(** X4.  With a list of filter widths the blocks are built one per
    interaction, whether or not [coupled_interactions] is set, and the
    filter-generating network of the block [i] has the width
    [n_filters[i]]. *)
Theorem init_filter_width_list (a : SchNet.Args.t) (l : list nat)
    (w w' : World) (self : SchNet.t) (i : nat) (block : SchNetInteraction.t) :
  SchNet.__init__ a w = (w', Ok self) →
  SchNet.Args.n_filters a = FiltersList l →
  SchNet.interactions self !! i = Some block →
  ∃ n, l !! i = Some n ∧ i < SchNet.Args.n_interactions a ∧
       filter_widths (SchNet.Args.n_gaussians a) n block ∧
       block_width (SchNet.Args.n_atom_basis a) block.
Proof.
  intros Hrun Hl Hi.
  pose proof (init_returns a _ _ _ Hrun) as Hb.
  assert (block_width (SchNet.Args.n_atom_basis a) block) as Hw.
  { eapply Forall_lookup_1; [apply (built_blocks _ _ Hb) | exact Hi]. }
  unfold SchNet.__init__ in Hrun. inv_run Hrun. destruct x as [e d].
  inv_run Hrun. apply mret_Ok in Hrun as [_ ->]. simpl in Hi.
  pose proof (init_interactions_widths a l Hl _ _ _ Hrun1) as Hall.
  destruct (Forall2_lookup_r _ _ _ _ _ Hall Hi) as (j & Hj & n & Hn & Hfw).
  apply lookup_seq in Hj as [-> Hlt]. simpl in Hn. eauto.
Qed.

End More_constructor.

(* ===================================================================== *)
(** ** Atomic numbers and the lookup table *)
(* ===================================================================== *)

Section Lookup_table.
Context `{Package}.

(** The table [Embedding_init] returns has a zero row at the front; it has
    [num * dim] entries when the generator draws as many numbers as it is
    asked for. *)
Lemma Embedding_init_table (num dim : nat) :
  returns (Embedding_init num dim 0)
    (λ e, num_embeddings e = num ∧ embedding_dim e = dim ∧ 0 < num ∧
          take dim (tdata (emb_weight e)) = replicate dim szero ∧
          ((∀ d n s, length (sample d n s).1 = n) →
           length (tdata (emb_weight e)) = num * dim)).
Proof.
  unfold Embedding_init. case_decide as Hnum; [|apply returns_raise].
  intros w w' e Hrun. inv_run Hrun. apply mret_Ok in Hrun as [_ ->].
  simpl. split_and!; [done..| |].
  - by rewrite take_app_length' by by rewrite length_replicate.
  - intros Hlen. unfold fill, draw in Hrun0.
    pose proof (Hlen StdNormal (numel [num; dim]) (rng w)) as Hxs.
    destruct (sample _ _ _) as [xs s]. injection Hrun0 as _ <-.
    simpl in *. rewrite length_app, length_replicate, length_drop, Hxs. nia.
Qed.

Lemma init_embedding_table (a : SchNet.Args.t) :
  returns (SchNet.init_embedding a)
    (λ p, ∀ e, p.1 = Some e →
          num_embeddings e = SchNet.Args.max_z a ∧
          embedding_dim e = SchNet.Args.n_atom_basis a / 2 ∧
          0 < SchNet.Args.max_z a ∧
          take (embedding_dim e) (tdata (emb_weight e))
          = replicate (embedding_dim e) szero ∧
          ((∀ d n s, length (sample d n s).1 = n) →
           length (tdata (emb_weight e))
           = num_embeddings e * embedding_dim e)).
Proof.
  unfold SchNet.init_embedding.
  destruct (SchNet.Args.chargeEmbedding a), (SchNet.Args.selectFet a) as [s|];
    cbn [andb negb]; repeat case_bool_decide; try done.
  all: try (apply (returns_bind _ _ _ _ (Embedding_init_table _ _));
            intros e (Hn & Hd & Hz & Hrow & Hlen)).
  all: apply (returns_bind _ _ _ _ (returns_True _)); intros d _.
  all: apply returns_ret; simpl; intros e' [= <-] || intros e' [=].
  all: rewrite Hn, Hd; auto.
Qed.

Lemma init_table (a : SchNet.Args.t) :
  returns (SchNet.__init__ a)
    (λ self, ∀ e, SchNet.embedding self = Some e →
          num_embeddings e = SchNet.Args.max_z a ∧
          embedding_dim e = SchNet.Args.n_atom_basis a / 2 ∧
          0 < SchNet.Args.max_z a ∧
          take (embedding_dim e) (tdata (emb_weight e))
          = replicate (embedding_dim e) szero ∧
          ((∀ d n s, length (sample d n s).1 = n) →
           length (tdata (emb_weight e))
           = num_embeddings e * embedding_dim e)).
Proof.
  unfold SchNet.__init__.
  apply (returns_bind _ _ _ _ (init_embedding_table a)). intros [e d] He.
  repeat (apply (returns_bind _ _ _ _ (returns_True _)); intros ? _).
  apply returns_ret. exact He.
Qed.

(** An index the lookup accepts lies in the table. *)
Lemma lookup_rows_range (e : Embedding) (idx : list Z) (rows : list scalar) :
  lookup_rows e idx = Ok rows →
  Forall (λ z, (0 ≤ z < Z.of_nat (num_embeddings e))%Z) idx.
Proof.
  revert rows. induction idx as [|z idx IH]; intros rows; simpl; [done|].
  case_decide; [|done].
  intros (rows' & Hrows & _)%result_bind_Ok. constructor; eauto.
Qed.

(** An index outside the table raises [IndexError]. *)
Lemma lookup_rows_outside (e : Embedding) (idx : list Z) :
  Exists (λ z, ¬ (0 ≤ z < Z.of_nat (num_embeddings e))%Z) idx →
  lookup_rows e idx = Raise IndexError.
Proof.
  induction 1 as [z idx Hz | z idx Hex IH]; simpl.
  - by rewrite decide_False.
  - case_decide; [|done]. by rewrite IH.
Qed.

(** In a table of [num * dim] entries, the row the lookup returns at the
    position [i] is the row of the table at the index found there. *)
Lemma lookup_rows_row (e : Embedding) (idx : list Z) (rows : list scalar)
    (i : nat) (z : Z) :
  length (tdata (emb_weight e)) = num_embeddings e * embedding_dim e →
  lookup_rows e idx = Ok rows →
  idx !! i = Some z →
  take (embedding_dim e) (drop (i * embedding_dim e) rows)
  = take (embedding_dim e)
      (drop (Z.to_nat z * embedding_dim e) (tdata (emb_weight e))).
Proof.
  intros Hlen. revert rows i. induction idx as [|z0 idx IH]; intros rows i;
    simpl; [done|].
  case_decide as Hz0; [|done].
  intros (rows' & Hrows & [= <-])%result_bind_Ok Hi.
  set (row := take (embedding_dim e)
                (drop (Z.to_nat z0 * embedding_dim e) (tdata (emb_weight e)))).
  assert (length row = embedding_dim e) as Hrow.
  { unfold row. rewrite length_take, length_drop, Hlen. nia. }
  destruct i as [|i]; simpl in Hi.
  - injection Hi as ->. simpl. rewrite drop_0.
    by rewrite take_app_length' by done.
  - replace (S i * embedding_dim e)
      with (length row + i * embedding_dim e) by lia.
    rewrite drop_app_add'  by done. eauto.
Qed.

(** X5.  The lookup table of an instance reserves the atomic number 0 for
    padding: when the generator draws as many numbers as it is asked for,
    every position of the index tensor that holds 0 gets the zero vector
    of width [int(n_atom_basis / 2)]. *)
Theorem padding_atoms_embed_to_zero (a : SchNet.Args.t) (w w' : World)
    (self : SchNet.t) (e : Embedding) (idx : tensor Z) (y : tensor scalar)
    (i : nat) :
  (∀ d n s, length (sample d n s).1 = n) →
  SchNet.__init__ a w = (w', Ok self) →
  SchNet.embedding self = Some e →
  Embedding_forward e (VLong idx) = Ok y →
  tdata idx !! i = Some 0%Z →
  take (SchNet.Args.n_atom_basis a / 2)
    (drop (i * (SchNet.Args.n_atom_basis a / 2)) (tdata y))
  = replicate (SchNet.Args.n_atom_basis a / 2) szero.
Proof.
  intros Hsample Hrun He Hy Hi.
  destruct (init_table a _ _ _ Hrun e He) as (_ & Hdim & _ & Hrow & Hlen).
  simpl in Hy. destruct (lookup_rows e (tdata idx)) as [rows|] eqn:Hrows;
    [|done].
  injection Hy as <-. cbn [tdata]. rewrite <- Hdim.
  rewrite (lookup_rows_row e _ _ _ _ (Hlen Hsample) Hrows Hi).
  change (Z.to_nat 0 * embedding_dim e) with 0. rewrite drop_0.
  exact Hrow.
Qed.

End Lookup_table.

(* ===================================================================== *)
(** ** More on [SchNet.forward] *)
(* ===================================================================== *)

Section More_forward.
Context `{Package}.

Lemma M_ret_bind {X Y} (x : X) (f : X → M Y) (w : World) :
  (mret x ≫= f) w = f x w.
Proof. reflexivity. Qed.

Lemma getitem_Some (inputs : gmap string value) (key : string) (v : value) :
  inputs !! key = Some v → getitem inputs key = mret v.
Proof. unfold getitem. by intros ->. Qed.

Lemma getitem_None (inputs : gmap string value) (key : string) :
  inputs !! key = None → getitem inputs key = raise (KeyError key).
Proof. unfold getitem. by intros ->. Qed.

(** The combined mode step by step. *)
Lemma embed_combined_Ok (self : SchNet.t) (props atomic_numbers : value)
    (w w' : World) (x : tensor scalar) :
  SchNet.chargeEmbedding self = true →
  SchNet.embed self props atomic_numbers w = (w', Ok x) →
  ∃ e t p ex,
    SchNet.embedding self = Some e ∧ props = VFloat t ∧
    Dense_forward (SchNet.dense self) t = Ok p ∧
    Embedding_forward e atomic_numbers = Ok ex ∧
    cat2 p ex = Ok x ∧
    w' = mkWorld (rng w) (stdout w ++ [[PSize (tshape x)]]) (cuda_available w).
Proof.
  unfold SchNet.embed. intros -> Hrun. inv_run Hrun.
  apply lift_Ok in Hrun0 as [-> (t & ->%as_float_Ok & Hp)%result_bind_Ok].
  destruct (SchNet.embedding self) as [e|]; [|by apply lift_Ok in Hrun1 as [_ ?]].
  apply mret_Ok in Hrun1 as [-> ->].
  apply lift_Ok in Hrun2 as [-> Hex]. apply lift_Ok in Hrun3 as [-> Hcat].
  injection Hrun4 as <-. apply mret_Ok in Hrun as [-> ->].
  by exists e, t, x0, x2.
Qed.

(** The mode of the properties alone does not look at the atomic numbers. *)
Lemma embed_props_only (self : SchNet.t) (props atomic_numbers : value) :
  SchNet.chargeEmbedding self = false →
  SchNet.embed self props atomic_numbers
  = lift (as_float props ≫= Dense_forward (SchNet.dense self)).
Proof. unfold SchNet.embed. by intros ->. Qed.

(** X6.  In the combined mode [SchNet.forward] returns only on batches
    whose atomic numbers are an integer tensor with every entry in
    [0, max_z): an entry outside the lookup table makes it raise. *)
Theorem forward_needs_atomic_numbers_in_table (a : SchNet.Args.t)
    (self : SchNet.t) (w0 w0' : World) (inputs : gmap string value)
    (w w' : World) (out : tensor scalar * option (list (tensor scalar))) :
  SchNet.__init__ a w0 = (w0', Ok self) →
  SchNet.Args.chargeEmbedding a = true →
  SchNet.forward self inputs w = (w', Ok out) →
  ∃ idx, inputs !! Properties_Z = Some (VLong idx) ∧
         Forall (λ z, (0 ≤ z < Z.of_nat (SchNet.Args.max_z a))%Z) (tdata idx).
Proof.
  intros Hinit Hmode (l & w1 & r_ij & f_ij & w2 & Hembed & _ & _)%forward_Ok.
  pose proof (init_returns a _ _ _ Hinit) as Hb.
  apply forward_embed_Ok in Hembed
    as (all & wa & wb & HZ & _ & _ & _ & _ & _ & _ & _ & _ & _ & Hembed).
  apply embed_combined_Ok in Hembed
    as (e & t & p & ex & He & _ & _ & Hex & _);
    [|by rewrite (built_chargeEmbedding _ _ Hb)].
  pose proof (built_embedding _ _ Hb) as Hbe. rewrite Hmode in Hbe.
  destruct Hbe as (e' & He' & _ & Hnum). rewrite He in He'.
  injection He' as <-.
  destruct (SchNet.Locals.atomic_numbers l) as [|idx|]; try done.
  exists idx. split; [done|]. simpl in Hex.
  destruct (lookup_rows e (tdata idx)) as [rows|] eqn:Hrows; [|done].
  rewrite <- Hnum. by eapply lookup_rows_range.
Qed.

(** Lines 301-324 do not look at the atomic numbers. *)
Lemma forward_rest_atomic_numbers (self : SchNet.t) (l : SchNet.Locals.t)
    (v : value) (w : World) :
  (SchNet.forward_distances self (set_atomic_numbers l v)
   ≫= λ '(r_ij, f_ij),
        SchNet.forward_interactions self (set_atomic_numbers l v) r_ij f_ij) w
  = (SchNet.forward_distances self l
     ≫= λ '(r_ij, f_ij), SchNet.forward_interactions self l r_ij f_ij) w.
Proof. reflexivity. Qed.

(** X7.  When the features are initialised from the properties alone,
    [SchNet.forward] needs the entry of the atomic numbers but not its
    value: any two values, [None] included, give the same run.  The key of
    the atomic numbers is assumed to differ from the other keys read. *)
Theorem forward_ignores_atomic_numbers (self : SchNet.t)
    (inputs : gmap string value) (v1 v2 : value) (w : World) :
  SchNet.chargeEmbedding self = false →
  Properties_Z ∉ keys_read_besides_Z →
  SchNet.forward self (<[Properties_Z := v1]> inputs) w
  = SchNet.forward self (<[Properties_Z := v2]> inputs) w.
Proof.
  intros Hmode HZ.
  assert (∀ v key, key ∈ keys_read_besides_Z →
            getitem (<[Properties_Z := v]> inputs) key = getitem inputs key)
    as Hget.
  { intros v key Hkey. apply getitem_agree, lookup_insert_ne.
    intros Heq. apply HZ. by rewrite Heq. }
  assert (∀ v, SchNet.forward_embed self (<[Properties_Z := v]> inputs) w
               = ((SchNet.forward_embed self (<[Properties_Z := v1]> inputs) w).1,
                  (λ l, set_atomic_numbers l v)
                  <$> (SchNet.forward_embed self
                         (<[Properties_Z := v1]> inputs) w).2)) as Hembed.
  { intros v. unfold SchNet.forward_embed. cbn [andb].
    rewrite !(getitem_Some _ Properties_Z _ (lookup_insert_eq _ _ _)).
    rewrite (select_props_agree self (<[Properties_Z := v]> inputs)
               (<[Properties_Z := v1]> inputs))
      by (rewrite !lookup_insert_ne; [done|..];
          intros Heq; apply HZ; rewrite Heq; unfold keys_read_besides_Z;
          set_solver).
    rewrite !Hget by (unfold keys_read_besides_Z; set_solver).
    rewrite !M_ret_bind.
    repeat (apply M_bind_map; intros ? ?).
    rewrite !embed_props_only by done.
    repeat (apply M_bind_map; intros ? ?).
    reflexivity. }
  unfold SchNet.forward. rewrite !M_bind_unfold, (Hembed v2).
  destruct (SchNet.forward_embed self (<[Properties_Z := v1]> inputs) w)
    as [w1 [l|e]]; [|reflexivity].
  cbn [fst snd fmap result_fmap].
  exact (eq_sym (forward_rest_atomic_numbers self l v2 w1)).
Qed.

(** X8.  A run of [SchNet.forward] that returns had a CUDA device, has
    advanced the random generator by one draw of [torch.rand] of the shape
    of [self.newpos], whatever [use_noise] is, has kept the lines printed
    before and has left the device as it was. *)
Theorem forward_effects (self : SchNet.t) (inputs : gmap string value)
    (w w' : World) (out : tensor scalar * option (list (tensor scalar))) :
  SchNet.forward self inputs w = (w', Ok out) →
  cuda_available w = true ∧ cuda_available w' = true ∧
  rng w' = (sample UniformUnit (numel (tshape (SchNet.newpos self))) (rng w)).2 ∧
  stdout w `prefix_of` stdout w'.
Proof.
  intros (l & w1 & r_ij & f_ij & w2 & Hembed & Hdist & Hloop)%forward_Ok.
  destruct (only_prints_forward_embed _ _ _ _ _ Hembed) as (Hrng & Hcuda & Hpre).
  apply forward_embed_Ok in Hembed
    as (_ & _ & _ & _ & _ & _ & _ & _ & _ & _ & _ & Hpos & _).
  apply forward_distances_world in Hdist as [Hcuda1 ->].
  rewrite forward_interactions_spec in Hloop. injection Hloop as <- _.
  simpl. rewrite <- Hcuda, <- Hpos, Hrng. split_and!; [done..|].
  etrans; [exact Hpre|]. by apply prefix_app_r.
Qed.

(** The lines a returning initial stage prints when all properties are
    used. *)
Lemma forward_embed_lines (self : SchNet.t) (inputs : gmap string value)
    (w w' : World) (l : SchNet.Locals.t) :
  SchNet.selectFet self = None →
  SchNet.forward_embed self inputs w = (w', Ok l) →
  ∃ li,
    value_shape (SchNet.Locals.ligand_indicator l) = Some li ∧
    stdout w' = stdout w ++ [[PStr "li: "; PSize li]] ++
                (if SchNet.chargeEmbedding self
                 then [[PSize (tshape (SchNet.Locals.x l))]] else []).
Proof.
  intros Hsel. unfold SchNet.forward_embed, SchNet.select_props.
  rewrite Hsel. cbn [andb]. intros Hrun. inv_run Hrun.
  repeat match goal with
    | Hg : getitem _ _ _ = _ |- _ => apply getitem_Ok in Hg as [-> ?]
    | Hl : lift _ _ = _ |- _ => apply lift_Ok in Hl as [-> ?]
    | Hp : print _ _ = _ |- _ => injection Hp as <- _
    | Hm : mret _ _ = (_, Ok _) |- _ => apply mret_Ok in Hm as [-> ->]
    end.
  cbn [SchNet.Locals.ligand_indicator SchNet.Locals.x].
  match goal with
  | Hs : value_slice2 _ _ _ = Ok ?v |- _ =>
      apply value_slice2_shape in Hs as (d0 & d1 & d2 & rest & _ & Hli)
  end.
  eexists. split; [exact Hli|].
  match goal with
  | He : SchNet.embed _ _ _ _ = _ |- _ => rename He into Hembed
  end.
  destruct (SchNet.chargeEmbedding self) eqn:Hmode.
  - apply embed_combined_Ok in Hembed
      as (_ & _ & _ & _ & _ & _ & _ & _ & _ & ->); [|done].
    simpl. by rewrite Hli, <- app_assoc.
  - rewrite embed_props_only in Hembed by done.
    apply lift_Ok in Hembed as [-> _]. simpl. by rewrite Hli.
Qed.

(** X9.  With [selectFet = None] a returning run of [SchNet.forward]
    prints, after what was printed before: the line ['li: '] with the size
    of the slice [props[:, :, 7:8]], in the combined mode the size of the
    initial feature tensor, and the whole positions tensor of the instance;
    nothing else. *)
Theorem forward_prints (self : SchNet.t) (inputs : gmap string value)
    (w w' : World) (out : tensor scalar * option (list (tensor scalar))) :
  SchNet.selectFet self = None →
  SchNet.forward self inputs w = (w', Ok out) →
  ∃ l w1 li,
    SchNet.forward_embed self inputs w = (w1, Ok l) ∧
    value_shape (SchNet.Locals.ligand_indicator l) = Some li ∧
    stdout w' = stdout w ++ lines_printed self li (SchNet.Locals.x l).
Proof.
  intros Hsel (l & w1 & r_ij & f_ij & w2 & Hembed & Hdist & Hloop)%forward_Ok.
  destruct (forward_embed_lines _ _ _ _ _ Hsel Hembed) as (li & Hli & Hout).
  exists l, w1, li. split_and!; [done..|].
  apply forward_embed_Ok in Hembed
    as (_ & _ & _ & _ & _ & _ & _ & _ & _ & _ & _ & Hpos & _).
  apply forward_distances_world in Hdist as [_ ->].
  rewrite forward_interactions_spec in Hloop. injection Hloop as <- _.
  simpl. rewrite Hout, Hpos. unfold lines_printed.
  by rewrite <- !app_assoc.
Qed.

(** The range [s : s + 1] has one element of [P] exactly for the values of
    [s] that select one column. *)
Lemma slice_one_column (s : Z) (P : nat) :
  slice_index (s + 1) P - slice_index s P = 1 ↔ selects_one_column s P.
Proof.
  unfold slice_index, selects_one_column.
  destruct (Z.ltb_spec s 0), (Z.ltb_spec (s + 1) 0); lia.
Qed.

(** X10.  An instance constructed with [selectFet = s] returns from
    [SchNet.forward], on properties of shape [(B, A, P)], only if
    [0 <= s < P] or [-P <= s < -1].  The last column cannot be selected as
    [-1]: the slice [-1 : 0] is empty. *)
Theorem forward_needs_selected_column (a : SchNet.Args.t) (self : SchNet.t)
    (w0 w0' : World) (s : Z) (inputs : gmap string value) (props : value)
    (B A P : nat) (w w' : World)
    (out : tensor scalar * option (list (tensor scalar))) :
  SchNet.__init__ a w0 = (w0', Ok self) →
  SchNet.Args.selectFet a = Some s →
  inputs !! "props" = Some props →
  value_shape props = Some [B; A; P] →
  SchNet.forward self inputs w = (w', Ok out) →
  selects_one_column s P ∧ s ≠ (-1)%Z.
Proof.
  intros Hb%init_returns Hsel Hprops Hshape
    (l & w1 & r_ij & f_ij & w2 & Hembed & _ & _)%forward_Ok.
  apply forward_embed_Ok in Hembed
    as (all & wa & wb & _ & _ & _ & _ & _ & _ & _ & _ & _ & Hsp & Hembed).
  apply select_props_Ok in Hsp as (all' & Hall' & Hsp).
  rewrite (built_selectFet _ _ Hb), Hsel in Hsp.
  rewrite Hprops in Hall'. injection Hall' as <-.
  apply value_slice2_shape in Hsp as (d0 & d1 & d2 & rest & Hs & Hs').
  rewrite Hshape in Hs. injection Hs as <- <- <- <-.
  destruct (embed_shape a self _ _ _ _ _ _ _ _ Hb Hembed Hs')
    as (t & _ & Hone & _).
  rewrite (built_dense_in _ _ Hb), Hsel in Hone.
  apply slice_one_column in Hone. split; [done|].
  unfold selects_one_column in Hone. lia.
Qed.

(** X11.  [SchNet.forward] returns only on batches that have the entries
    of the atomic numbers, the cell, the cell offsets, the neighbours, the
    two masks and ['props'], whether or not it uses them. *)
Theorem forward_needs_keys (self : SchNet.t) (inputs : gmap string value)
    (w w' : World) (out : tensor scalar * option (list (tensor scalar)))
    (key : string) :
  SchNet.forward self inputs w = (w', Ok out) →
  key ∈ keys_read →
  is_Some (inputs !! key).
Proof.
  intros (l & w1 & r_ij & f_ij & w2 & Hembed & _ & _)%forward_Ok.
  apply forward_embed_Ok in Hembed
    as (all & wa & wb & ? & ? & ? & ? & ? & ? & ? & _).
  unfold keys_read. rewrite !elem_of_cons, elem_of_nil.
  intros [->|[->|[->|[->|[->|[->|[->|[]]]]]]]]; eauto.
Qed.

(** X12.  With [selectFet = None], on a batch that has all entries and
    floating-point properties of shape [(B, A, P)] with [P] other than 8,
    [SchNet.forward] raises [RuntimeError] from the affine layer: it has
    printed the line ['li: '] and nothing else, and has drawn no random
    number. *)
Theorem forward_raises_on_other_widths (a : SchNet.Args.t) (self : SchNet.t)
    (w0 w0' : World) (inputs : gmap string value) (props : tensor scalar)
    (B A P : nat) (w : World) :
  SchNet.__init__ a w0 = (w0', Ok self) →
  SchNet.Args.selectFet a = None →
  (∀ key, key ∈ keys_read → is_Some (inputs !! key)) →
  inputs !! "props" = Some (VFloat props) →
  tshape props = [B; A; P] →
  P ≠ 8 →
  SchNet.forward self inputs w
  = (mkWorld (rng w)
       (stdout w ++
        [[PStr "li: "; PSize [B; A; slice_index 8 P - slice_index 7 P]]])
       (cuda_available w),
     Raise RuntimeError).
Proof.
  intros Hb%init_returns Hsel Hkeys Hprops Hshape HP.
  assert (∀ key, key ∈ keys_read → ∃ v, getitem inputs key = mret v) as Hget.
  { intros key [v Hv]%Hkeys. exists v. by apply getitem_Some. }
  destruct (Hget Properties_Z) as [vz Hz];
    [unfold keys_read; rewrite !elem_of_cons; tauto|].
  destruct (Hget Properties_cell) as [vc Hc];
    [unfold keys_read; rewrite !elem_of_cons; tauto|].
  destruct (Hget Properties_cell_offset) as [vo Ho];
    [unfold keys_read; rewrite !elem_of_cons; tauto|].
  destruct (Hget Properties_neighbors) as [vn Hn];
    [unfold keys_read; rewrite !elem_of_cons; tauto|].
  destruct (Hget Properties_neighbor_mask) as [vm Hm];
    [unfold keys_read; rewrite !elem_of_cons; tauto|].
  destruct (Hget Properties_atom_mask) as [va Ha];
    [unfold keys_read; rewrite !elem_of_cons; tauto|].
  assert (SchNet.embed self (VFloat props) vz
          = lift (Raise RuntimeError)) as Hembed.
  { assert (Dense_forward (SchNet.dense self) props = Raise RuntimeError)
      as Hd.
    { apply (Dense_forward_mismatch _ _ [B; A] P); [done|].
      by rewrite (built_dense_in _ _ Hb), Hsel. }
    unfold SchNet.embed. simpl. rewrite Hd.
    by destruct (SchNet.chargeEmbedding self). }
  assert (value_slice2 (VFloat props) 7 8
          = Ok (VFloat (Tensor [B; A; slice_index 8 P - slice_index 7 P]
                          (flat_map
                             (λ o, take ((slice_index 8 P - slice_index 7 P)
                                         * numel [])
                                     (drop ((o * P + slice_index 7 P) * numel [])
                                        (tdata props)))
                             (seq 0 (B * A)))))) as Hslice.
  { unfold value_slice2, slice2. by rewrite Hshape. }
  unfold SchNet.forward. rewrite M_bind_unfold.
  unfold SchNet.forward_embed, SchNet.select_props.
  rewrite (built_selectFet _ _ Hb), Hsel, Hz, Hc, Ho, Hn, Hm, Ha,
    (getitem_Some _ _ _ Hprops).
  cbn [andb]. rewrite !M_ret_bind, M_lift_bind, Hslice.
  rewrite M_bind_unfold. cbn [print]. rewrite M_ret_bind, M_bind_unfold, Hembed.
  reflexivity.
Qed.

(** X13.  Recording the intermediates changes neither the tensor
    [SchNet.forward] returns nor its effects: with either value of
    [return_intermediate] the run ends in the same world, raises the same
    exception or returns the same final tensor. *)
Theorem forward_final_tensor_unrecorded (self : SchNet.t)
    (return_intermediate : bool) (inputs : gmap string value) (w : World) :
  (SchNet.forward (set_return_intermediate self return_intermediate)
     inputs w).1
  = (SchNet.forward self inputs w).1 ∧
  fst <$> (SchNet.forward (set_return_intermediate self return_intermediate)
             inputs w).2
  = fst <$> (SchNet.forward self inputs w).2.
Proof.
  unfold SchNet.forward. rewrite !M_bind_unfold.
  change (SchNet.forward_embed
            (set_return_intermediate self return_intermediate))
    with (SchNet.forward_embed self).
  destruct (SchNet.forward_embed self inputs w) as [w1 [l|e]]; [|done].
  rewrite !M_bind_unfold.
  change (SchNet.forward_distances
            (set_return_intermediate self return_intermediate))
    with (SchNet.forward_distances self).
  destruct (SchNet.forward_distances self l w1) as [w2 [[r_ij f_ij]|e]];
    [|done].
  rewrite !forward_interactions_spec.
  cbn [set_return_intermediate SchNet.interactions fst snd].
  by destruct (additive_updates _ _ _ _ _ _).
Qed.

(** Concatenation along dimension 2 needs equal leading extents. *)
Lemma cat2_leading {A} (a b c : tensor A) (B A' n m : nat)
    (lead : list nat) :
  cat2 a b = Ok c → tshape a = [B; A'; n] → tshape b = lead ++ [m] →
  tshape b ≠ [0] → lead = [B; A'].
Proof.
  unfold cat2. intros Hcat Ha Hb Hb0. rewrite decide_False in Hcat by done.
  rewrite Ha, Hb in Hcat. case_decide; [done|].
  destruct lead as [|b0 [|b1 [|b2 lead]]]; try done.
  - simpl in Hcat. case_decide as Heq; [|done]. by destruct Heq as (-> & -> & _).
  - simpl in Hcat. case_decide as Heq; [|done].
    destruct Heq as (_ & _ & Heq). by destruct lead.
Qed.

(** X14.  In the combined mode with at least two features, on a batch
    with properties of shape [(B, A, P)], [SchNet.forward] returns only if
    the atomic numbers are an integer tensor of shape [(B, A)]: the
    concatenation of line 288 rejects the other shapes. *)
Theorem forward_needs_atomic_numbers_shape (a : SchNet.Args.t)
    (self : SchNet.t) (w0 w0' : World) (inputs : gmap string value)
    (props : value) (B A P : nat) (w w' : World)
    (out : tensor scalar * option (list (tensor scalar))) :
  SchNet.__init__ a w0 = (w0', Ok self) →
  SchNet.Args.chargeEmbedding a = true →
  2 ≤ SchNet.Args.n_atom_basis a →
  inputs !! "props" = Some props →
  value_shape props = Some [B; A; P] →
  SchNet.forward self inputs w = (w', Ok out) →
  ∃ idx, inputs !! Properties_Z = Some (VLong idx) ∧ tshape idx = [B; A].
Proof.
  intros Hb%init_returns Hmode HF Hprops Hshape
    (l & w1 & r_ij & f_ij & w2 & Hembed & _ & _)%forward_Ok.
  apply forward_embed_Ok in Hembed
    as (all & wa & wb & HZ & _ & _ & _ & _ & _ & _ & _ & _ & Hsp & Hembed).
  apply select_props_Ok in Hsp as (all' & Hall' & Hsp).
  rewrite Hprops in Hall'. injection Hall' as <-.
  assert (∃ n, value_shape (SchNet.Locals.props l) = Some [B; A; n])
    as [n Hn].
  { destruct (SchNet.selectFet self) as [s|].
    - apply value_slice2_shape in Hsp as (d0 & d1 & d2 & rest & Hs & Hs').
      rewrite Hshape in Hs. injection Hs as <- <- <- <-. eauto.
    - rewrite Hsp. eauto. }
  apply embed_combined_Ok in Hembed
    as (e & t & p & ex & He & Ht & Hp & Hex & Hcat & _);
    [|by rewrite (built_chargeEmbedding _ _ Hb)].
  rewrite Ht in Hn. simpl in Hn. injection Hn as Hn.
  destruct (Dense_forward_shape_3 _ _ _ _ _ _ Hp Hn) as [_ Hps].
  apply Embedding_forward_shape in Hex as (idx & Hidx & Hexs).
  pose proof (built_embedding _ _ Hb) as Hbe. rewrite Hmode in Hbe.
  destruct Hbe as (e' & He' & Hdim & _). rewrite He in He'.
  injection He' as <-.
  exists idx. split; [by rewrite <- Hidx|].
  apply (cat2_leading _ _ _ _ _ _ _ _ Hcat Hps Hexs).
  rewrite Hexs, Hdim. intros Heq.
  apply (f_equal length) in Heq as Hlen. rewrite length_app in Hlen.
  destruct (tshape idx); [|simpl in Hlen; lia].
  rewrite app_nil_l in Heq.
  assert (SchNet.Args.n_atom_basis a / 2 = 0) by congruence.
  assert (1 ≤ SchNet.Args.n_atom_basis a / 2)
    by (apply Nat.div_le_lower_bound; lia).
  lia.
Qed.

End More_forward.

(* ===================================================================== *)
(** ** The diagnostic loop of the selected column *)
(* ===================================================================== *)

Section Selection_loop.
Context `{Package}.

Lemma print_Ok (args : list parg) (w w' : World) (u : unit) :
  print args w = (w', Ok u) →
  stdout w' = stdout w ++ [args].
Proof. unfold print. by intros [= <- _]. Qed.

(** Lines 261-266: the flag ends as the disjunction over the atoms, and one
    line is printed per atom. *)
Lemma atoms_loop (props : value) (i : nat) (ks : list nat) (yes yes' : bool)
    (w w' : World) :
  for_each ks
    (λ k yes,
       b ← lift (SchNet.eq_one_at props i k);
       if b : bool then print [PStr "prot"; PInt (Z.of_nat i)];; mret true
       else print [PStr "lig"];; mret yes)
    yes w = (w', Ok yes') →
  yes' = yes || existsb (marked props i) ks ∧
  stdout w' = stdout w ++ map (line_of_atom props i) ks.
Proof.
  revert yes w. induction ks as [|k ks IH]; intros yes w Hrun.
  - apply mret_Ok in Hrun as [-> ->]. simpl.
    by rewrite orb_false_r, app_nil_r.
  - rewrite for_each_cons in Hrun.
    apply M_bind_Ok in Hrun as (y & w1 & Hbody & Hrest).
    apply IH in Hrest as [-> ->].
    apply M_bind_Ok in Hbody as (b & wl & [-> Hb]%lift_Ok & Hbody).
    assert (marked props i k = b) as Hm by (unfold marked; by rewrite Hb).
    simpl. unfold line_of_atom at 2. rewrite Hm.
    destruct b.
    + apply M_bind_Ok in Hbody as (u & wp & Hp%print_Ok & [-> ->]%mret_Ok).
      rewrite Hp, <- app_assoc. split; [|done]. by rewrite orb_true_r.
    + apply M_bind_Ok in Hbody as (u & wp & Hp%print_Ok & [-> ->]%mret_Ok).
      rewrite Hp, <- app_assoc. done.
Qed.

(** Lines 259-268 for the batch entries [is]. *)
Lemma entries_loop (props : value) (A : nat) (entries : list nat)
    (w w' : World) (u u' : unit) :
  SchNet.value_dim props 1 = Ok A →
  for_each entries
    (λ i _,
       m ← lift (SchNet.value_dim props 1);
       yes ← for_each (seq 0 m)
               (λ k yes,
                  b ← lift (SchNet.eq_one_at props i k);
                  if b : bool then
                    print [PStr "prot"; PInt (Z.of_nat i)];; mret true
                  else
                    print [PStr "lig"];; mret yes)
               false;
       if negb yes then print [PInt (Z.of_nat i); PStr " has no prot"]
       else mret ())
    u w = (w', Ok u') →
  stdout w' = stdout w ++ flat_map (lines_of_entry props A) entries.
Proof.
  intros HA. revert u w. induction entries as [|i entries IH]; intros u w Hrun.
  - apply mret_Ok in Hrun as [-> _]. simpl. by rewrite app_nil_r.
  - rewrite for_each_cons in Hrun.
    apply M_bind_Ok in Hrun as (u1 & w1 & Hbody & Hrest).
    apply IH in Hrest as ->.
    apply M_bind_Ok in Hbody as (m & wl & [-> Hm]%lift_Ok & Hbody).
    rewrite HA in Hm. injection Hm as <-.
    apply M_bind_Ok in Hbody as (yes & wa & [-> Ha]%atoms_loop & Hbody).
    simpl in Hbody. simpl. unfold lines_of_entry at 2.
    destruct (existsb (marked props i) (seq 0 A)); simpl in Hbody.
    + apply mret_Ok in Hbody as [-> _]. rewrite Ha, app_nil_r.
      by rewrite <- app_assoc.
    + apply print_Ok in Hbody as ->. rewrite Ha.
      by rewrite <- !app_assoc.
Qed.

(** X15.  With [selectFet] set, a returning run of lines 257-269 returns
    the selected slice of the properties, of some shape [(B, A, ...)], and
    prints: for every batch entry one line per atom, ['prot', i] for an
    atom whose selected property equals 1 and ['lig'] for another atom, then
    the line [i, ' has no prot'] if the entry has no atom with the property
    equal to 1; and at the end the slice. *)
Theorem selected_column_lines (self : SchNet.t) (s : Z)
    (inputs : gmap string value) (w w' : World) (props : value) :
  SchNet.selectFet self = Some s →
  SchNet.select_props self inputs w = (w', Ok props) →
  ∃ all B A rest,
    inputs !! "props" = Some all ∧
    value_slice2 all s (s + 1) = Ok props ∧
    value_shape props = Some (B :: A :: rest) ∧
    stdout w' = stdout w ++ lines_selected props B A.
Proof.
  intros Hs Hrun. unfold SchNet.select_props in Hrun. rewrite Hs in Hrun.
  apply M_bind_Ok in Hrun as (all & w1 & [-> Hall]%getitem_Ok & Hrun).
  apply M_bind_Ok in Hrun as (props' & w1 & [-> Hslice]%lift_Ok & Hrun).
  apply M_bind_Ok in Hrun as (n & w1 & [-> Hn]%lift_Ok & Hrun).
  apply M_bind_Ok in Hrun as (u & w1 & Hloop & Hrun).
  apply M_bind_Ok in Hrun as (u' & w2 & Hp%print_Ok & [-> ->]%mret_Ok).
  destruct (value_slice2_shape _ _ _ _ Hslice)
    as (d0 & d1 & d2 & rest & _ & Hshape).
  assert (n = d0) as ->.
  { unfold SchNet.value_dim in Hn. rewrite Hshape in Hn. simpl in Hn.
    congruence. }
  apply (entries_loop _ d1) in Hloop;
    [|unfold SchNet.value_dim; by rewrite Hshape].
  exists all, d0, d1, (slice_index (s + 1) d2 - slice_index s d2 :: rest).
  split_and!; [done..|].
  unfold lines_selected. by rewrite Hp, Hloop, <- app_assoc.
Qed.

End Selection_loop.

(* ===================================================================== *)
(** ** The further properties at concrete inputs *)

Section Further_evaluation.
Import Concrete.
Import Samples.

Lemma result_Ok_get {X} (d : X) (r : result X) :
  succeeded r = true → r = Ok (get d r).
Proof. by destruct r. Qed.

Lemma present_Some {X} (d : X) (o : option X) :
  present o = true → o = Some (default d o).
Proof. by destruct o. Qed.

Lemma sampler_length (d : sampler) (n : nat) (s : Seed) :
  length (sample d n s).1 = n.
Proof. simpl. by rewrite length_map, length_seq. Qed.

Lemma batch_keys (props positions : tensor Z) (key : string) :
  key ∈ keys_read → is_Some (batch props positions !! key).
Proof.
  unfold keys_read. rewrite !elem_of_cons, elem_of_nil.
  intros [->|[->|[->|[->|[->|[->|[->|[]]]]]]]]; vm_compute; eauto.
Qed.

(** Discharge an equation between a run and its value by evaluation. *)
Ltac evaluates :=
  unfold world_after, output_of, construct, constructed, block0, table_of;
  first [apply run_Ok | apply result_Ok_get | apply present_Some];
  vm_compute; reflexivity.

(** The constructor at the default arguments. *)
Lemma init_returns_only_if_witness :
  args_ok defaults ∧ cuda_available world0 = true ∧
  stdout (constructed defaults) = stdout world0.
Proof.
  apply (init_returns_only_if defaults world0 (constructed defaults)
           (construct defaults)).
  evaluates.
Defined.

(** The block of four features on the features of two atoms. *)
Lemma interaction_forward_width_witness :
  let v := get no_tensor
             (SchNetInteraction.forward block0 features0 distances0 neighbors0
                neighbor_mask0 (Some expanded0)) in
  ∃ y lead,
    CFConv_forward (SchNetInteraction.cfconv block0) features0 distances0
      neighbors0 neighbor_mask0 (Some expanded0) = Ok y ∧
    tshape y = lead ++ [4] ∧
    tshape v = lead ++ [4].
Proof.
  cbv zeta.
  apply (@interaction_forward_width numeric package 4 4 3 5%Z HardCutoff false
           world0
           (@SchNetInteraction.__init__ numeric package 4 4 3 5%Z HardCutoff
              false world0).1
           block0).
  - evaluates.
  - evaluates.
Defined.

(** The filter-generating network of the block on distances expanded in
    four Gaussians. *)
Lemma filter_network_width_witness :
  let run := Dense_forward (SchNetInteraction.filter_network block0).1
               expanded0
             ≫= Dense_forward (SchNetInteraction.filter_network block0).2 in
  (4 = 4 → ∃ W, run = Ok W ∧ tshape W = [1; 2; 1] ++ [3]) ∧
  (4 ≠ 4 → run = Raise RuntimeError).
Proof.
  apply (@filter_network_width numeric package 4 4 3 5%Z HardCutoff false world0
           (@SchNetInteraction.__init__ numeric package 4 4 3 5%Z HardCutoff
              false world0).1
           block0 expanded0 [1; 2; 1] 4).
  - evaluates.
  - reflexivity.
Defined.

(** The second block of the instance built with the widths [2, 3]. *)
Lemma init_filter_width_list_witness :
  let block := default no_block
                 (SchNet.interactions (construct args_widths) !! 1) in
  ∃ n, [2; 3] !! 1 = Some n ∧ 1 < 2 ∧
       filter_widths 4 n block ∧ block_width 4 block.
Proof.
  cbv zeta.
  apply (init_filter_width_list args_widths [2; 3] world0
           (constructed args_widths) (construct args_widths) 1).
  - evaluates.
  - reflexivity.
  - evaluates.
Defined.

(** A carbon atom and a padding atom in the table of the default
    instance. *)
Lemma padding_atoms_embed_to_zero_witness :
  let e := table_of (construct defaults) in
  let y := get no_tensor
             (Embedding_forward e (VLong (Tensor [1; 2] [6; 0]%Z))) in
  take (4 / 2) (drop (1 * (4 / 2)) (tdata y)) = replicate (4 / 2) 0%Z.
Proof.
  cbv zeta.
  apply (padding_atoms_embed_to_zero defaults world0 (constructed defaults)
           (construct defaults) (table_of (construct defaults))
           (Tensor [1; 2] [6; 0]%Z)).
  - apply sampler_length.
  - evaluates.
  - evaluates.
  - evaluates.
  - reflexivity.
Defined.

(** The default instance on the batch with the atomic numbers 6 and 8. *)
Lemma forward_needs_atomic_numbers_in_table_witness :
  ∃ idx, batch props8 positions0 !! Properties_Z = Some (VLong idx) ∧
         Forall (λ z, (0 ≤ z < Z.of_nat 100)%Z) (tdata idx).
Proof.
  apply (forward_needs_atomic_numbers_in_table defaults (construct defaults)
           world0 (constructed defaults) (batch props8 positions0)
           (constructed defaults)
           (world_after (construct defaults) (batch props8 positions0)
              (constructed defaults))
           (output_of (construct defaults) (batch props8 positions0)
              (constructed defaults))).
  - evaluates.
  - reflexivity.
  - evaluates.
Defined.

(** The instance with features from the properties alone, on the batch
    with the atomic numbers replaced by a missing value and by a tensor
    outside every table. *)
Lemma forward_ignores_atomic_numbers_witness :
  SchNet.forward (construct args_props_only) (batch_Z VNone)
    (constructed args_props_only)
  = SchNet.forward (construct args_props_only)
      (batch_Z (VLong (Tensor [3] [-1; 500; 7]%Z)))
      (constructed args_props_only).
Proof.
  apply (forward_ignores_atomic_numbers (construct args_props_only)
           (batch props8 positions0) VNone
           (VLong (Tensor [3] [-1; 500; 7]%Z))
           (constructed args_props_only)).
  - vm_compute. reflexivity.
  - unfold keys_read_besides_Z. rewrite !not_elem_of_cons.
    split_and!; [done..|]. apply not_elem_of_nil.
Defined.

(** The effects of the default instance on the batch of two atoms. *)
Lemma forward_effects_witness :
  let w := constructed defaults in
  let w' := world_after (construct defaults) (batch props8 positions0) w in
  cuda_available w = true ∧ cuda_available w' = true ∧
  rng w'
  = (sample UniformUnit (numel (tshape (SchNet.newpos (construct defaults))))
       (rng w)).2 ∧
  stdout w `prefix_of` stdout w'.
Proof.
  cbv zeta.
  apply (forward_effects (construct defaults) (batch props8 positions0)
           (constructed defaults)
           (world_after (construct defaults) (batch props8 positions0)
              (constructed defaults))
           (output_of (construct defaults) (batch props8 positions0)
              (constructed defaults))).
  evaluates.
Defined.

(** The lines the default instance prints on the batch of two atoms. *)
Lemma forward_prints_witness :
  let self := construct defaults in
  let w := constructed defaults in
  ∃ l w1 li,
    SchNet.forward_embed self (batch props8 positions0) w = (w1, Ok l) ∧
    value_shape (SchNet.Locals.ligand_indicator l) = Some li ∧
    stdout (world_after self (batch props8 positions0) w)
    = stdout w ++ lines_printed self li (SchNet.Locals.x l).
Proof.
  cbv zeta.
  apply (forward_prints (construct defaults) (batch props8 positions0)
           (constructed defaults)
           (world_after (construct defaults) (batch props8 positions0)
              (constructed defaults))
           (output_of (construct defaults) (batch props8 positions0)
              (constructed defaults))).
  - vm_compute. reflexivity.
  - evaluates.
Defined.

(** The instance that selects the column 2 returns on the batch with eight
    properties. *)
Lemma forward_needs_selected_column_witness :
  selects_one_column 2 8 ∧ 2%Z ≠ (-1)%Z.
Proof.
  apply (forward_needs_selected_column (args_select 2)
           (construct (args_select 2)) world0 (constructed (args_select 2))
           2 (batch props8 positions0) (@VFloat numeric props8) 1 2 8
           (constructed (args_select 2))
           (world_after (construct (args_select 2)) (batch props8 positions0)
              (constructed (args_select 2)))
           (output_of (construct (args_select 2)) (batch props8 positions0)
              (constructed (args_select 2)))).
  - evaluates.
  - reflexivity.
  - apply batch_props.
  - reflexivity.
  - evaluates.
Defined.

(** The batch on which the default instance returns has the entry of the
    neighbour mask. *)
Lemma forward_needs_keys_witness :
  is_Some (batch props8 positions0 !! Properties_neighbor_mask).
Proof.
  apply (forward_needs_keys (construct defaults) (batch props8 positions0)
           (constructed defaults)
           (world_after (construct defaults) (batch props8 positions0)
              (constructed defaults))
           (output_of (construct defaults) (batch props8 positions0)
              (constructed defaults))).
  - evaluates.
  - unfold keys_read. rewrite !elem_of_cons. tauto.
Defined.

(** The default instance on the batch with three properties per atom. *)
Lemma forward_raises_on_other_widths_witness :
  let w := constructed defaults in
  SchNet.forward (construct defaults) (batch props3 positions0) w
  = (mkWorld (rng w)
       (stdout w ++
        [[PStr "li: "; PSize [1; 2; slice_index 8 3 - slice_index 7 3]]])
       (cuda_available w),
     Raise RuntimeError).
Proof.
  cbv zeta.
  apply (forward_raises_on_other_widths defaults (construct defaults) world0
           (constructed defaults) (batch props3 positions0) props3 1 2 3
           (constructed defaults)).
  - evaluates.
  - reflexivity.
  - apply batch_keys.
  - apply batch_props.
  - reflexivity.
  - discriminate.
Defined.

(** The default instance returns on a batch whose atomic numbers have the
    shape of the properties. *)
Lemma forward_needs_atomic_numbers_shape_witness :
  ∃ idx, batch props8 positions0 !! Properties_Z = Some (VLong idx) ∧
         tshape idx = [1; 2].
Proof.
  apply (forward_needs_atomic_numbers_shape defaults (construct defaults)
           world0 (constructed defaults) (batch props8 positions0)
           (@VFloat numeric props8) 1 2 8 (constructed defaults)
           (world_after (construct defaults) (batch props8 positions0)
              (constructed defaults))
           (output_of (construct defaults) (batch props8 positions0)
              (constructed defaults))).
  - evaluates.
  - reflexivity.
  - simpl. lia.
  - apply batch_props.
  - reflexivity.
  - evaluates.
Defined.

(** The instance that selects the column 0 on the batch with eight
    properties: the first atom has the property 1, the second has not. *)
Lemma selected_column_lines_witness :
  let self := construct (args_select 0) in
  let w := constructed (args_select 0) in
  let run := SchNet.select_props self (batch props8 positions0) w in
  ∃ all B A rest,
    batch props8 positions0 !! "props" = Some all ∧
    value_slice2 all 0 (0 + 1) = Ok (get VNone run.2) ∧
    value_shape (get VNone run.2) = Some (B :: A :: rest) ∧
    stdout run.1 = stdout w ++ lines_selected (get VNone run.2) B A.
Proof.
  cbv zeta.
  apply (selected_column_lines (construct (args_select 0)) 0
           (batch props8 positions0) (constructed (args_select 0))).
  - vm_compute. reflexivity.
  - evaluates.
Defined.

End Further_evaluation.
